(** * assistant_bot.py: a shallow embedding and its specification

    The program is a command-line contact manager written in Python.  This
    development embeds, from [src/assistant_bot.py]:

    - the string primitives the program calls ([str.isdigit], [str.strip],
      [str.lower], [str.split]) on strings whose code points are below 256;
    - the exceptions the program raises and the [input_error] decorator;
    - the validated fields [Name] and [Phone], the class [Record] and the
      class [AddressBook];
    - the command handlers, [parse_input], [handle_command] and the body of
      the read loop of [main].

    Mutable objects are modelled by explicit state passing: a method is a
    function from the object's state to an outcome (a value or a raised
    exception) and the object's next state.  What is printed is appended to
    an output log, one event per message. *)

From Stdlib Require Import String Ascii List Bool Arith Lia.
Import ListNotations.

Local Open Scope string_scope.
Local Open Scope list_scope.
Local Open Scope nat_scope.

(* ================================================================== *)
(** * Python strings *)

(** A [str] is modelled by [string]; the character [c] stands for the code
    point [nat_of_ascii c], so the model covers the Latin-1 range
    U+0000..U+00FF, which is closed under [str.lower]. *)
Module PyStr.

Definition ord (c : ascii) : nat := nat_of_ascii c.

(** [str.isdecimal] on one character: below U+0100 only '0'..'9'. *)
Definition isdecimal_char (c : ascii) : bool :=
  (48 <=? ord c) && (ord c <=? 57).

(** [str.isdigit] on one character: Numeric_Type Digit or Decimal.  Below
    U+0100 these are '0'..'9' and the superscripts U+00B2, U+00B3, U+00B9. *)
Definition isdigit_char (c : ascii) : bool :=
  isdecimal_char c || (ord c =? 178) || (ord c =? 179) || (ord c =? 185).

(** [str.isspace] on one character, which is also what [split] and [strip]
    without argument treat as white space: U+0009..U+000D, U+001C..U+0020,
    U+0085 and U+00A0. *)
Definition isspace_char (c : ascii) : bool :=
  ((9 <=? ord c) && (ord c <=? 13))
  || ((28 <=? ord c) && (ord c <=? 32))
  || (ord c =? 133) || (ord c =? 160).

(** [str.lower] on one character: 'A'..'Z' and U+00C0..U+00DE (without the
    multiplication sign U+00D7) move up by 32. *)
Definition lower_char (c : ascii) : ascii :=
  if ((65 <=? ord c) && (ord c <=? 90))
     || ((192 <=? ord c) && (ord c <=? 222) && negb (ord c =? 215))
  then ascii_of_nat (ord c + 32)
  else c.

Definition is_ascii_char (c : ascii) : bool := ord c <? 128.

(** A character that [str.lower] leaves as it is. *)
Definition is_lower_char (c : ascii) : bool := Ascii.eqb (lower_char c) c.

Fixpoint all (p : ascii -> bool) (s : string) : bool :=
  match s with
  | EmptyString => true
  | String c s' => p c && all p s'
  end.

Definition len (s : string) : nat := String.length s.

(** [s.isdigit()]: every character is a digit and there is at least one. *)
Definition isdigit (s : string) : bool :=
  match s with
  | EmptyString => false
  | String _ _ => all isdigit_char s
  end.

Fixpoint lower (s : string) : string :=
  match s with
  | EmptyString => EmptyString
  | String c s' => String (lower_char c) (lower s')
  end.

Fixpoint lstrip (s : string) : string :=
  match s with
  | EmptyString => EmptyString
  | String c s' => if isspace_char c then lstrip s' else s
  end.

Fixpoint rstrip (s : string) : string :=
  match s with
  | EmptyString => EmptyString
  | String c s' =>
      match rstrip s' with
      | EmptyString => if isspace_char c then EmptyString else String c EmptyString
      | r => String c r
      end
  end.

Definition strip (s : string) : string := rstrip (lstrip s).

(** [s.split()]: the maximal runs of characters that are not white space,
    in order.  [split_from cur s] scans [s] with [cur] the run read so far. *)
Definition flush (cur : string) (rest : list string) : list string :=
  match cur with
  | EmptyString => rest
  | String _ _ => cur :: rest
  end.

Fixpoint split_from (cur : string) (s : string) : list string :=
  match s with
  | EmptyString => flush cur []
  | String c s' =>
      if isspace_char c then flush cur (split_from EmptyString s')
      else split_from (cur ++ String c EmptyString) s'
  end.

Definition split (s : string) : list string := split_from EmptyString s.

Definition not_space (c : ascii) : bool := negb (isspace_char c).

(** A token: what [split] can return, a non-empty run without white space. *)
Definition token (s : string) : bool :=
  negb (String.eqb s EmptyString) && all not_space s.

Definition repeat_char (c : ascii) (n : nat) : string :=
  Nat.iter n (String c) EmptyString.

(** [sep.join(l)] *)
Fixpoint join (sep : string) (l : list string) : string :=
  match l with
  | [] => EmptyString
  | [x] => x
  | x :: l' => x ++ sep ++ join sep l'
  end.

End PyStr.

(* ================================================================== *)
(** * Exceptions and stateful computations *)

(** The exceptions of the program.  [Exception] stands for any other
    subclass of Python's [Exception]; [SystemExit], raised by [sys.exit],
    derives from [BaseException] only. *)
Inductive exn : Type :=
| TypeError (msg : string)
| ValueError (msg : string)
| KeyError (msg : string)
| IndexError (msg : string)
| Exception (msg : string)
| SystemExit.

Inductive outcome (A : Type) : Type :=
| Ret (a : A)
| Raise (e : exn).
Arguments Ret {A} a.
Arguments Raise {A} e.

(** A computation on a mutable object of state [S]: the state is kept when
    an exception is raised, as a Python object keeps its mutations. *)
Definition M (S A : Type) : Type := S -> outcome A * S.

Definition ret {S A} (a : A) : M S A := fun s => (Ret a, s).
Definition raise {S A} (e : exn) : M S A := fun s => (Raise e, s).
Definition bind {S A B} (c : M S A) (k : A -> M S B) : M S B :=
  fun s =>
    match c s with
    | (Ret a, s') => k a s'
    | (Raise e, s') => (Raise e, s')
    end.
Definition gets {S A} (f : S -> A) : M S A := fun s => (Ret (f s), s).
Definition modify {S} (f : S -> S) : M S unit := fun s => (Ret tt, f s).

Declare Scope py_scope.
Delimit Scope py_scope with py.
Notation "x <- c ;; k" := (bind c (fun x => k))
  (at level 61, c at next level, right associativity) : py_scope.
Notation "c ;; k" := (bind c (fun _ => k))
  (at level 61, right associativity) : py_scope.
Local Open Scope py_scope.

(* ================================================================== *)
(** * Python dictionaries with string keys *)

(** A [dict] keeps its items in insertion order; assigning to a key that is
    present replaces the value in place. *)
Module Dict.
Section WithValue.
Context {V : Type}.

Definition t : Type := list (string * V).

Definition empty : t := [].

Fixpoint get (k : string) (d : t) : option V :=
  match d with
  | [] => None
  | (k', v) :: d' => if String.eqb k k' then Some v else get k d'
  end.

(** [k in d] *)
Definition mem (k : string) (d : t) : bool :=
  match get k d with
  | Some _ => true
  | None => false
  end.

(** [d[k] = v] *)
Fixpoint set (k : string) (v : V) (d : t) : t :=
  match d with
  | [] => [(k, v)]
  | (k', v') :: d' =>
      if String.eqb k k' then (k', v) :: d' else (k', v') :: set k v d'
  end.

(** [del d[k]], for [k] in [d] *)
Fixpoint del (k : string) (d : t) : t :=
  match d with
  | [] => []
  | (k', v') :: d' =>
      if String.eqb k k' then del k d' else (k', v') :: del k d'
  end.

Definition keys (d : t) : list string := map fst d.

(** The keys of a dictionary are pairwise different. *)
Definition wf (d : t) : Prop := NoDup (keys d).

End WithValue.
Arguments t V : clear implicits.
End Dict.

(* ================================================================== *)
(** * Fields, records and the address book *)

(** [class Field]: one attribute, [value]. *)
Record Field : Type := mkField { value : string }.

Definition Name : Type := Field.
Definition Phone : Type := Field.

(** [Name.__init__] *)
Definition Name_init (v : string) : outcome Name :=
  if String.eqb v EmptyString then Raise (ValueError "Name cannot be empty.")
  else Ret (mkField v).

(** [Phone.__init__] *)
Definition Phone_init (v : string) : outcome Phone :=
  if negb (PyStr.isdigit v) || negb (PyStr.len (PyStr.strip v) =? 10)
  then Raise (ValueError "Phone number must be 10 digits")
  else Ret (mkField v).

Definition lift {S A} (o : outcome A) : M S A := fun s => (o, s).

(** [class Record]: a name and the list of its phones, in insertion order. *)
Record Record_ : Type := mkRecord { name : Name; phones : list Phone }.

Definition set_phones (ps : list Phone) (r : Record_) : Record_ :=
  mkRecord (name r) ps.

(** [Record.__init__] *)
Definition Record_init (n : string) : outcome Record_ :=
  match Name_init n with
  | Ret nm => Ret (mkRecord nm [])
  | Raise e => Raise e
  end.

(** [Record.add_phone] *)
Definition add_phone (phone : string) : M Record_ unit :=
  p <- lift (Phone_init phone) ;;
  modify (fun r => set_phones (phones r ++ [p]) r).

(** The loop of [Record.remove_phone]: the first [p] whose value is [phone]
    is removed and the loop left.  [list.remove(p)] removes the first element
    equal to [p]; a [Phone] has no [__eq__], so that is the object [p] itself,
    at the place the loop found it. *)
Fixpoint remove_first (phone : string) (ps : list Phone) : list Phone :=
  match ps with
  | [] => []
  | p :: ps' =>
      if String.eqb (value p) phone then ps' else p :: remove_first phone ps'
  end.

(** [Record.remove_phone] *)
Definition remove_phone (phone : string) : M Record_ unit :=
  modify (fun r => set_phones (remove_first phone (phones r)) r).

(** [Record.edit_phone] *)
Definition edit_phone (old_phone new_phone : string) : M Record_ unit :=
  remove_phone old_phone ;;
  add_phone new_phone.

(** [Record.find_phone]: the phone found, or [None]. *)
Definition find_phone (phone : string) (r : Record_) : option Phone :=
  List.find (fun p => String.eqb (value p) phone) (phones r).

(** [class AddressBook(UserDict)]: the attribute [data]. *)
Definition AddressBook : Type := Dict.t Record_.

(** [AddressBook.add_record] *)
Definition add_record (record : Record_) : M AddressBook unit :=
  modify (Dict.set (value (name record)) record).

(** [AddressBook.delete] *)
Definition delete (n : string) : M AddressBook unit :=
  present <- gets (Dict.mem n) ;;
  if present then modify (Dict.del n)
  else raise (KeyError ("Record with name '" ++ n ++ "' not found")).

(** [AddressBook.find]: the record found, or [None]. *)
Definition find (n : string) (book : AddressBook) : option Record_ :=
  Dict.get n book.

(* ================================================================== *)
(** * The command loop *)

(** The five messages of [input_error], one per [except] clause. *)
Inductive error_class : Type :=
| IncorrectCommand
| IncorrectArguments
| ContactNotFound
| IndexOutOfRange
| Unexpected.

(** The first line each clause prints. *)
Definition headline (cls : error_class) : string :=
  match cls with
  | IncorrectCommand => "Error: Incorrect command."
  | IncorrectArguments => "Error: Incorrect arguments."
  | ContactNotFound => "Error: Contact not found."
  | IndexOutOfRange => "Error: Index out of range."
  | Unexpected => "An unexpected error occurred:"
  end.

(** What the program prints, one constructor per message of the source;
    colours are left out. *)
Inductive output : Type :=
| Greeting                                            (* hello *)
| AlreadyExists (n phone : string)                    (* add, same phone *)
| AlreadyAdded (n current_phone : string)             (* add, other phone *)
| Added (n phone : string)                            (* add, new name *)
| NoChanges (n new_phone : string)                    (* change, same phone *)
| Changed (n current_phone new_phone : string)        (* change *)
| PhoneNumber (n phone : string)                      (* phone *)
| ContactLine (n phone : string)                      (* all, one per item *)
| GoodBye                                             (* handle_exit *)
| HelpText                                            (* help_command *)
| ErrorReport (cls : error_class) (e : exn).          (* input_error *)

(** The state of a session: the dictionary [contacts] of [main] and what has
    been printed so far. *)
Record world : Type := mkWorld { contacts : Dict.t string; out : list output }.

Definition world0 : world := mkWorld Dict.empty [].

Definition print (o : output) : M world unit :=
  modify (fun w => mkWorld (contacts w) (out w ++ [o])).

Definition set_contacts (d : Dict.t string) : M world unit :=
  modify (fun w => mkWorld d (out w)).

(** [help_command] *)
Definition help_command : M world unit := print HelpText.

(** [input_error]: the wrapper runs the handler and turns each exception
    that derives from [Exception] into a message; [SystemExit] does not and
    passes through. *)
Definition input_error (handler : M world unit) : M world unit :=
  fun w =>
    match handler w with
    | (Ret a, w') => (Ret a, w')
    | (Raise (TypeError m), w') =>
        (print (ErrorReport IncorrectCommand (TypeError m)) ;; help_command) w'
    | (Raise (ValueError m), w') =>
        print (ErrorReport IncorrectArguments (ValueError m)) w'
    | (Raise (KeyError m), w') =>
        print (ErrorReport ContactNotFound (KeyError m)) w'
    | (Raise (IndexError m), w') =>
        print (ErrorReport IndexOutOfRange (IndexError m)) w'
    | (Raise (Exception m), w') =>
        print (ErrorReport Unexpected (Exception m)) w'
    | (Raise SystemExit, w') => (Raise SystemExit, w')
    end.

(** [parse_input] *)
Definition parse_input (user_input : string) : string * list string :=
  let parts := PyStr.split (PyStr.lower user_input) in
  let command := match parts with [] => EmptyString | p :: _ => p end in
  let args := if 1 <? List.length parts then List.tl parts else [] in
  (command, args).

(** The unpacking [a, b = args] of a tuple that does not have two items. *)
Definition unpack_error (n : nat) : exn :=
  if n <? 2 then ValueError "not enough values to unpack"
  else ValueError "too many values to unpack".

(** A function defined under [@input_error] is given twice: its body, named
    [..._undecorated], and the function the name is bound to, which is
    [input_error] applied to the body. *)

(** [hello] *)
Definition hello_undecorated : M world unit := print Greeting.
Definition hello : M world unit := input_error hello_undecorated.

(** [add_contact(contacts, *args)] *)
Definition add_contact_undecorated (args : list string) : M world unit :=
  if negb (List.length args =? 2)
  then raise (ValueError "Usage: add [name] [phone number]")
  else
    match args with
    | [n; phone] =>
        cs <- gets contacts ;;
        match Dict.get n cs with
        | Some current_phone =>
            if String.eqb current_phone phone
            then print (AlreadyExists n phone)
            else print (AlreadyAdded n current_phone)
        | None =>
            set_contacts (Dict.set n phone cs) ;;
            print (Added n phone)
        end
    | _ => raise (unpack_error (List.length args))
    end.
Definition add_contact (args : list string) : M world unit :=
  input_error (add_contact_undecorated args).

(** [change_contact(contacts, *args)] *)
Definition change_contact_undecorated (args : list string) : M world unit :=
  if negb (List.length args =? 2)
  then raise (ValueError "Usage: change [name] [new phone number]")
  else
    match args with
    | [n; new_phone] =>
        cs <- gets contacts ;;
        match Dict.get n cs with
        | Some current_phone =>
            if String.eqb new_phone current_phone
            then print (NoChanges n new_phone)
            else
              set_contacts (Dict.set n new_phone cs) ;;
              print (Changed n current_phone new_phone)
        | None => raise (KeyError ("Name '" ++ n ++ "' not found."))
        end
    | _ => raise (unpack_error (List.length args))
    end.
Definition change_contact (args : list string) : M world unit :=
  input_error (change_contact_undecorated args).

(** [show_phone(contacts, *args)] *)
Definition show_phone_undecorated (args : list string) : M world unit :=
  if negb (List.length args =? 1)
  then raise (ValueError "Usage: phone [name]")
  else
    match args with
    | n :: _ =>
        cs <- gets contacts ;;
        match Dict.get n cs with
        | Some phone => print (PhoneNumber n phone)
        | None => raise (KeyError ("Name '" ++ n ++ "' not found."))
        end
    | [] => raise (IndexError "tuple index out of range")
    end.
Definition show_phone (args : list string) : M world unit :=
  input_error (show_phone_undecorated args).

(** The loop [for name, phone in contacts.items(): print(...)]. *)
Fixpoint print_items (items : list (string * string)) : M world unit :=
  match items with
  | [] => ret tt
  | (n, phone) :: items' => print (ContactLine n phone) ;; print_items items'
  end.

(** [show_all_contacts(contacts)] *)
Definition show_all_contacts_undecorated : M world unit :=
  cs <- gets contacts ;;
  match cs with
  | _ :: _ => print_items cs
  | [] => raise (IndexError "No contacts available.")
  end.
Definition show_all_contacts : M world unit :=
  input_error show_all_contacts_undecorated.

(** [handle_exit]: a farewell, then [sys.exit()]. *)
Definition handle_exit : M world unit :=
  print GoodBye ;; raise SystemExit.

Definition handler : Type := list string -> M world unit.

(** The table [command_handlers] of [main]. *)
Definition command_handlers : Dict.t handler :=
  [ ("hello", fun _ => hello);
    ("add", fun args => add_contact args);
    ("change", fun args => change_contact args);
    ("phone", fun args => show_phone args);
    ("all", fun _ => show_all_contacts);
    ("close", fun _ => handle_exit);
    ("exit", fun _ => handle_exit);
    ("quit", fun _ => handle_exit);
    ("help", fun _ => help_command) ].

(** [handle_command] *)
Definition handle_command_undecorated (handlers : Dict.t handler)
    (command : string) (args : option (list string)) : M world unit :=
  match Dict.get command handlers with
  | Some h =>
      let args := match args with None => [] | Some a => a end in
      h args
  | None => raise (TypeError ("Unknown command '" ++ command ++ "'"))
  end.
Definition handle_command (handlers : Dict.t handler) (command : string)
    (args : option (list string)) : M world unit :=
  input_error (handle_command_undecorated handlers command args).

(** One turn of the loop of [main]: the line read is stripped, parsed and
    dispatched. *)
Definition step (line : string) : M world unit :=
  let user_input := PyStr.strip line in
  let '(command, args) := parse_input user_input in
  handle_command command_handlers command (Some args).

(** The loop of [main] on the lines read one after the other; it is left
    only when an exception escapes a turn. *)
Fixpoint session (lines : list string) : M world unit :=
  match lines with
  | [] => ret tt
  | line :: lines' => step line ;; session lines'
  end.

(* ================================================================== *)
(** * The claims as the specification words them, where the code differs *)

(** "exactly 10 characters long and consists only of decimal digits" *)
Definition ten_decimal_digits (s : string) : Prop :=
  PyStr.len s = 10 /\ PyStr.all PyStr.isdecimal_char s = true.

(** "succeeds for every such string, fails with ValueError for every other" *)
Definition Phone_accepts_exactly_decimal (s : string) : Prop :=
  (ten_decimal_digits s -> Phone_init s = Ret (mkField s))
  /\ (~ ten_decimal_digits s -> exists m, Phone_init s = Raise (ValueError m)).

(** The classes of the error messages in an output log. *)
Fixpoint reported_classes (o : list output) : list error_class :=
  match o with
  | [] => []
  | ErrorReport cls _ :: o' => cls :: reported_classes o'
  | _ :: o' => reported_classes o'
  end.

(** "an unknown command is reported with the same message class as a
    wrong-arity call": what the turn on [line] reports against what the turn
    on [arity_line] reports. *)
Definition same_class_as_wrong_arity (line arity_line : string) (w : world) : Prop :=
  reported_classes (out (snd (step line (mkWorld (contacts w) []))))
  = reported_classes (out (snd (step arity_line (mkWorld (contacts w) [])))).

(** A command of the table. *)
Definition recognized (command : string) : bool :=
  Dict.mem command command_handlers.

(** The commands of the deliberate exit path. *)
Definition exit_command (command : string) : bool :=
  String.eqb command "close" || String.eqb command "exit"
  || String.eqb command "quit".

(* ================================================================== *)
(** * Invariants and measures used by the properties below *)

(** A phone as [Phone.__init__] makes it. *)
Definition valid_phone (p : Phone) : Prop := Phone_init (value p) = Ret p.

(** A record as the methods of [Record] make and keep it. *)
Definition valid_record (r : Record_) : Prop :=
  value (name r) <> EmptyString /\ Forall valid_phone (phones r).

(** How many phones of a list have the value [phone]. *)
Definition count_phone (phone : string) (ps : list Phone) : nat :=
  List.length (List.filter (fun p => String.eqb (value p) phone) ps).

(** A token in lower case: what [parse_input] hands to the handlers. *)
Definition lowercase_token (s : string) : Prop :=
  PyStr.token s = true /\ PyStr.lower s = s.

(** Contacts whose names and phones are all tokens in lower case. *)
Definition normalized (d : Dict.t string) : Prop :=
  Forall (fun item => lowercase_token (fst item) /\ lowercase_token (snd item)) d.

(** The two commands that assign to [contacts]. *)
Definition modifies_contacts (command : string) : bool :=
  String.eqb command "add" || String.eqb command "change".

(* ================================================================== *)
(** * Facts on characters and strings *)

Module PyStrFacts.
Import PyStr.

Ltac by_cases_on_char c :=
  destruct c as [[] [] [] [] [] [] [] []]; vm_compute; try reflexivity;
  try discriminate; auto.

Lemma digit_not_space (c : ascii) :
  isdigit_char c = true -> isspace_char c = false.
Proof. by_cases_on_char c. Qed.

Lemma isspace_lower_char (c : ascii) :
  isspace_char (lower_char c) = isspace_char c.
Proof. by_cases_on_char c. Qed.

Lemma lower_char_idem (c : ascii) :
  lower_char (lower_char c) = lower_char c.
Proof. by_cases_on_char c. Qed.

Lemma lower_char_digit (c : ascii) :
  isdigit_char c = true -> lower_char c = c.
Proof. by_cases_on_char c. Qed.

Lemma ascii_digit_decimal (c : ascii) :
  is_ascii_char c = true -> isdigit_char c = isdecimal_char c.
Proof. by_cases_on_char c. Qed.

Lemma decimal_is_digit (c : ascii) :
  isdecimal_char c = true -> isdigit_char c = true.
Proof. unfold isdigit_char. intros ->. reflexivity. Qed.

Lemma all_app (p : ascii -> bool) (a b : string) :
  all p (a ++ b) = all p a && all p b.
Proof.
  induction a as [|c a IH]; simpl.
  - reflexivity.
  - rewrite IH. apply andb_assoc.
Qed.

Lemma all_impl (p q : ascii -> bool) (s : string) :
  (forall c, p c = true -> q c = true) -> all p s = true -> all q s = true.
Proof.
  intros Hpq. induction s as [|c s IH]; simpl; auto.
  intros H. apply andb_true_iff in H as [Hc Hs].
  rewrite (Hpq c Hc), (IH Hs). reflexivity.
Qed.

Lemma all_ext (p q : ascii -> bool) (s : string) :
  (forall c, p c = q c) -> all p s = all q s.
Proof.
  intros Hpq. induction s as [|c s IH]; simpl; auto.
  rewrite Hpq, IH. reflexivity.
Qed.

Lemma digits_nospace (s : string) :
  all isdigit_char s = true -> all not_space s = true.
Proof.
  apply all_impl. intros c Hc. unfold not_space.
  rewrite (digit_not_space c Hc). reflexivity.
Qed.

Lemma app_empty_r (s : string) : (s ++ "")%string = s.
Proof. induction s as [|c s IH]; simpl; congruence. Qed.

Lemma app_assoc (a b c : string) :
  ((a ++ b) ++ c)%string = (a ++ (b ++ c))%string.
Proof. induction a as [|x a IH]; simpl; congruence. Qed.

(** ** lower *)

Lemma lower_app (a b : string) :
  lower (a ++ b) = (lower a ++ lower b)%string.
Proof. induction a as [|c a IH]; simpl; congruence. Qed.

Lemma lower_idem (s : string) : lower (lower s) = lower s.
Proof.
  induction s as [|c s IH]; simpl; auto.
  rewrite lower_char_idem, IH. reflexivity.
Qed.

Lemma lower_digits (s : string) :
  all isdigit_char s = true -> lower s = s.
Proof.
  induction s as [|c s IH]; simpl; auto.
  intros H. apply andb_true_iff in H as [Hc Hs].
  rewrite (lower_char_digit c Hc), (IH Hs). reflexivity.
Qed.

Lemma nospace_lower (s : string) : all not_space (lower s) = all not_space s.
Proof.
  induction s as [|c s IH]; simpl; auto.
  unfold not_space at 1 3. rewrite isspace_lower_char, IH. reflexivity.
Qed.

Lemma token_lower (s : string) : token (lower s) = token s.
Proof.
  unfold token. rewrite nospace_lower.
  destruct s; reflexivity.
Qed.

(** ** strip *)

Lemma lstrip_nospace (s : string) : all not_space s = true -> lstrip s = s.
Proof.
  destruct s as [|c s]; simpl; auto.
  intros H. apply andb_true_iff in H as [Hc _].
  apply negb_true_iff in Hc. rewrite Hc. reflexivity.
Qed.

Lemma rstrip_nospace (s : string) : all not_space s = true -> rstrip s = s.
Proof.
  induction s as [|c s IH]; simpl; auto.
  intros H. apply andb_true_iff in H as [Hc Hs].
  apply negb_true_iff in Hc. rewrite (IH Hs), Hc.
  destruct s; reflexivity.
Qed.

Lemma strip_nospace (s : string) : all not_space s = true -> strip s = s.
Proof.
  intros H. unfold strip. rewrite (lstrip_nospace s H). apply rstrip_nospace, H.
Qed.

Lemma lstrip_spaces (s : string) : all isspace_char s = true -> lstrip s = "".
Proof.
  induction s as [|c s IH]; simpl; auto.
  intros H. apply andb_true_iff in H as [Hc Hs]. rewrite Hc. auto.
Qed.

Lemma strip_spaces (s : string) : all isspace_char s = true -> strip s = "".
Proof. intros H. unfold strip. rewrite (lstrip_spaces s H). reflexivity. Qed.

Lemma lower_lstrip (s : string) : lower (lstrip s) = lstrip (lower s).
Proof.
  induction s as [|c s IH]; simpl; auto.
  rewrite isspace_lower_char. destruct (isspace_char c); auto.
Qed.

Lemma lower_rstrip (s : string) : lower (rstrip s) = rstrip (lower s).
Proof.
  induction s as [|c s IH]; simpl; auto.
  rewrite <- IH, isspace_lower_char.
  destruct (rstrip s); simpl; auto.
  destruct (isspace_char c); reflexivity.
Qed.

Lemma lower_strip (s : string) : lower (strip s) = strip (lower s).
Proof. unfold strip. rewrite lower_rstrip, lower_lstrip. reflexivity. Qed.

End PyStrFacts.

(** * Facts on [split] *)
Module SplitFacts.
Import PyStr PyStrFacts.

Lemma split_from_run (t rest cur : string) :
  all not_space t = true ->
  split_from cur (t ++ rest) = split_from (cur ++ t) rest.
Proof.
  revert cur. induction t as [|c t IH]; simpl; intros cur H.
  - rewrite app_empty_r. reflexivity.
  - apply andb_true_iff in H as [Hc Ht].
    apply negb_true_iff in Hc. rewrite Hc, (IH _ Ht), app_assoc. reflexivity.
Qed.

(** A run closed by a white-space character is the next item. *)
Lemma split_from_item (t rest cur : string) (sp : ascii) :
  all not_space t = true -> isspace_char sp = true ->
  split_from cur (t ++ String sp rest)
  = flush (cur ++ t) (split_from "" rest).
Proof.
  intros Ht Hsp. rewrite (split_from_run _ _ _ Ht). simpl. rewrite Hsp.
  reflexivity.
Qed.

(** A run that ends the string is the last item. *)
Lemma split_from_last (t cur : string) :
  all not_space t = true -> split_from cur t = flush (cur ++ t) [].
Proof.
  intros Ht. rewrite <- (app_empty_r t) at 1.
  rewrite (split_from_run _ _ _ Ht). reflexivity.
Qed.

Lemma flush_token (t : string) (l : list string) :
  token t = true -> flush t l = t :: l.
Proof. destruct t; [discriminate | reflexivity]. Qed.

Lemma token_not_space (t : string) : token t = true -> all not_space t = true.
Proof. unfold token. intros H. apply andb_true_iff in H as [_ H]. exact H. Qed.

Lemma split_spaces (s : string) :
  all isspace_char s = true -> split s = [].
Proof.
  unfold split. induction s as [|c s IH]; simpl; auto.
  intros H. apply andb_true_iff in H as [Hc Hs]. rewrite Hc. simpl. auto.
Qed.

(** [" ".join([a, b])] and [" ".join([a, b, c])] split into their items. *)
Lemma split_two (a b : string) :
  token a = true -> token b = true ->
  split (a ++ " " ++ b) = [a; b].
Proof.
  intros Ha Hb. unfold split. simpl.
  rewrite split_from_item by (auto using token_not_space).
  rewrite split_from_last by (auto using token_not_space).
  simpl. rewrite !flush_token by assumption. reflexivity.
Qed.

Lemma split_three (a b c : string) :
  token a = true -> token b = true -> token c = true ->
  split (a ++ " " ++ b ++ " " ++ c) = [a; b; c].
Proof.
  intros Ha Hb Hc. unfold split. simpl.
  rewrite split_from_item by (auto using token_not_space).
  rewrite split_from_item by (auto using token_not_space).
  rewrite split_from_last by (auto using token_not_space).
  simpl. rewrite !flush_token by assumption. reflexivity.
Qed.

(** Leading and trailing white space does not change the items. *)
Lemma split_lstrip (s : string) : split (lstrip s) = split s.
Proof.
  unfold split. induction s as [|c s IH]; simpl; auto.
  destruct (isspace_char c) eqn:Hc; simpl; auto.
  rewrite Hc. reflexivity.
Qed.

Lemma split_from_rstrip (s cur : string) :
  split_from cur (rstrip s) = split_from cur s.
Proof.
  revert cur. induction s as [|c s IH]; intros cur; simpl; auto.
  destruct (rstrip s) as [|c' r] eqn:Hr.
  - destruct (isspace_char c) eqn:Hc; simpl.
    + rewrite <- IH. reflexivity.
    + rewrite Hc, <- IH. reflexivity.
  - simpl. destruct (isspace_char c) eqn:Hc.
    + rewrite <- IH. reflexivity.
    + rewrite <- IH. reflexivity.
Qed.

Lemma split_strip (s : string) : split (strip s) = split s.
Proof.
  unfold strip, split at 1. rewrite split_from_rstrip. apply split_lstrip.
Qed.

(** Every item of [split] is made of characters of the string. *)
Lemma split_from_all (p : ascii -> bool) (s cur : string) :
  all p cur = true -> all p s = true ->
  Forall (fun t => all p t = true) (split_from cur s).
Proof.
  revert cur. induction s as [|c s IH]; intros cur Hcur Hs; simpl.
  - destruct cur; simpl; auto.
  - simpl in Hs. apply andb_true_iff in Hs as [Hc Hs].
    destruct (isspace_char c).
    + destruct cur; simpl; auto.
    + apply IH; auto. rewrite all_app, Hcur. simpl. rewrite Hc. reflexivity.
Qed.

End SplitFacts.

(** * Facts on dictionaries *)
Module DictFacts.
Section WithValue.
Context {V : Type}.
Implicit Types (d : Dict.t V) (k : string) (v : V).

Lemma get_set_same k v d : Dict.get k (Dict.set k v d) = Some v.
Proof.
  induction d as [|[k' v'] d IH]; simpl.
  - rewrite String.eqb_refl. reflexivity.
  - destruct (String.eqb k k') eqn:E; simpl; rewrite E; auto.
Qed.

Lemma get_set_other k k' v d :
  k <> k' -> Dict.get k' (Dict.set k v d) = Dict.get k' d.
Proof.
  intros Hne. induction d as [|[k0 v0] d IH]; simpl.
  - apply String.eqb_neq in Hne. rewrite String.eqb_sym, Hne. reflexivity.
  - destruct (String.eqb k k0) eqn:E; simpl.
    + apply String.eqb_eq in E. subst k0.
      apply String.eqb_neq in Hne. rewrite String.eqb_sym, Hne. reflexivity.
    + rewrite IH. reflexivity.
Qed.

Lemma set_absent k v d :
  Dict.get k d = None -> Dict.set k v d = d ++ [(k, v)].
Proof.
  induction d as [|[k' v'] d IH]; simpl; auto.
  destruct (String.eqb k k'); [discriminate|].
  intros H. rewrite (IH H). reflexivity.
Qed.

Lemma get_del_same k d : Dict.get k (Dict.del k d) = None.
Proof.
  induction d as [|[k' v'] d IH]; simpl; auto.
  destruct (String.eqb k k') eqn:E; simpl; auto.
  rewrite E. exact IH.
Qed.

Lemma get_del_other k k' d :
  k <> k' -> Dict.get k' (Dict.del k d) = Dict.get k' d.
Proof.
  intros Hne. induction d as [|[k0 v0] d IH]; simpl; auto.
  destruct (String.eqb k k0) eqn:E; simpl.
  - apply String.eqb_eq in E. subst k0.
    apply String.eqb_neq in Hne. rewrite String.eqb_sym, Hne. exact IH.
  - rewrite IH. reflexivity.
Qed.

Lemma del_absent k d : Dict.get k d = None -> Dict.del k d = d.
Proof.
  induction d as [|[k' v'] d IH]; simpl; auto.
  destruct (String.eqb k k'); [discriminate|].
  intros H. rewrite (IH H). reflexivity.
Qed.

Lemma get_None_not_key k d : Dict.get k d = None -> ~ In k (Dict.keys d).
Proof.
  induction d as [|[k' v'] d IH]; simpl; auto.
  destruct (String.eqb k k') eqn:E; [discriminate|].
  intros H [Hk|Hk].
  - subst k'. rewrite String.eqb_refl in E. discriminate.
  - exact (IH H Hk).
Qed.

Lemma keys_set_present k v d :
  Dict.get k d <> None -> Dict.keys (Dict.set k v d) = Dict.keys d.
Proof.
  induction d as [|[k' v'] d IH]; simpl.
  - intros H. contradiction H. reflexivity.
  - destruct (String.eqb k k') eqn:E; simpl; auto.
    intros H. rewrite (IH H). reflexivity.
Qed.

Lemma NoDup_snoc (l : list string) (a : string) :
  NoDup l -> ~ In a l -> NoDup (l ++ [a]).
Proof.
  induction l as [|x l IH]; simpl; intros Hnd Hnin.
  - constructor; [intros [] | constructor].
  - inversion Hnd as [|? ? Hx Hl]; subst. constructor.
    + rewrite in_app_iff. simpl. intros [H|[H|[]]]; [exact (Hx H)|].
      apply Hnin. left. symmetry. exact H.
    + apply IH; auto.
Qed.

(** Assignment and deletion keep the keys pairwise different. *)
Lemma wf_set k v d : Dict.wf d -> Dict.wf (Dict.set k v d).
Proof.
  unfold Dict.wf. intros Hwf.
  destruct (Dict.get k d) eqn:G.
  - rewrite keys_set_present; [exact Hwf | congruence].
  - rewrite (set_absent _ _ _ G). unfold Dict.keys. rewrite map_app. simpl.
    apply NoDup_snoc; [exact Hwf | exact (get_None_not_key _ _ G)].
Qed.

Lemma keys_del_incl k d k' :
  In k' (Dict.keys (Dict.del k d)) -> In k' (Dict.keys d).
Proof.
  induction d as [|[k0 v0] d IH]; simpl; auto.
  destruct (String.eqb k k0); simpl; intuition.
Qed.

Lemma wf_del k d : Dict.wf d -> Dict.wf (Dict.del k d).
Proof.
  unfold Dict.wf. induction d as [|[k' v'] d IH]; simpl; auto.
  intros H. inversion H as [|? ? Hnin Hnd]; subst.
  destruct (String.eqb k k'); simpl; auto.
  constructor; auto.
  intros Hin. apply Hnin. exact (keys_del_incl _ _ _ Hin).
Qed.

Lemma mem_get k d :
  Dict.mem k d = match Dict.get k d with Some _ => true | None => false end.
Proof. reflexivity. Qed.

End WithValue.
End DictFacts.

(** * Facts on the decorator and the handlers *)
Module LoopFacts.
Import PyStr PyStrFacts SplitFacts.

(** Only [SystemExit] passes the wrapper. *)
Lemma input_error_outcome (h : M world unit) (w : world) :
  fst (input_error h w) = Ret tt
  \/ (fst (input_error h w) = Raise SystemExit /\ h w = (Raise SystemExit, snd (input_error h w))).
Proof.
  unfold input_error. destruct (h w) as [[[]|e] w']; [left; reflexivity|].
  destruct e; try (left; reflexivity).
  right. split; reflexivity.
Qed.

Lemma input_error_Ret (h : M world unit) (w w' : world) :
  h w = (Ret tt, w') -> input_error h w = (Ret tt, w').
Proof. unfold input_error. intros ->. reflexivity. Qed.

(** Wrapping twice is wrapping once: the outer wrapper never sees what the
    inner one has caught. *)
Lemma input_error_idem (h : M world unit) (w : world) :
  input_error (input_error h) w = input_error h w.
Proof.
  unfold input_error at 1.
  destruct (input_error_outcome h w) as [H|[H _]];
    destruct (input_error h w) as [[[]|e] w']; simpl in H; try discriminate;
    try reflexivity.
  inversion H; subst. reflexivity.
Qed.

(** ** The table *)

Lemma dispatch_hello args w :
  handle_command command_handlers "hello" (Some args) w = hello w.
Proof. apply input_error_idem. Qed.

Lemma dispatch_add args w :
  handle_command command_handlers "add" (Some args) w = add_contact args w.
Proof. apply input_error_idem. Qed.

Lemma dispatch_change args w :
  handle_command command_handlers "change" (Some args) w = change_contact args w.
Proof. apply input_error_idem. Qed.

Lemma dispatch_phone args w :
  handle_command command_handlers "phone" (Some args) w = show_phone args w.
Proof. apply input_error_idem. Qed.

Lemma dispatch_all args w :
  handle_command command_handlers "all" (Some args) w = show_all_contacts w.
Proof. apply input_error_idem. Qed.

Lemma dispatch_unknown command args w :
  recognized command = false ->
  handle_command command_handlers command args w
  = (Ret tt,
     mkWorld (contacts w)
       (out w ++ [ErrorReport IncorrectCommand
                    (TypeError ("Unknown command '" ++ command ++ "'"));
                  HelpText])).
Proof.
  unfold recognized, Dict.mem, handle_command, handle_command_undecorated.
  destruct (Dict.get command command_handlers); [discriminate|].
  intros _. cbv [input_error raise bind help_command print modify contacts out].
  rewrite <- List.app_assoc. reflexivity.
Qed.

(** ** The handlers on well-formed calls *)

Lemma add_contact_two n phone w :
  add_contact [n; phone] w =
  match Dict.get n (contacts w) with
  | None =>
      (Ret tt, mkWorld (Dict.set n phone (contacts w)) (out w ++ [Added n phone]))
  | Some current_phone =>
      if String.eqb current_phone phone
      then (Ret tt, mkWorld (contacts w) (out w ++ [AlreadyExists n phone]))
      else (Ret tt, mkWorld (contacts w) (out w ++ [AlreadyAdded n current_phone]))
  end.
Proof.
  unfold add_contact, add_contact_undecorated, input_error, bind, gets. simpl.
  destruct (Dict.get n (contacts w)) as [cur|]; [|reflexivity].
  destruct (String.eqb cur phone); reflexivity.
Qed.

Lemma change_contact_two n new_phone w :
  change_contact [n; new_phone] w =
  match Dict.get n (contacts w) with
  | None =>
      (Ret tt,
       mkWorld (contacts w)
         (out w ++ [ErrorReport ContactNotFound
                      (KeyError ("Name '" ++ n ++ "' not found."))]))
  | Some current_phone =>
      if String.eqb new_phone current_phone
      then (Ret tt, mkWorld (contacts w) (out w ++ [NoChanges n new_phone]))
      else (Ret tt,
            mkWorld (Dict.set n new_phone (contacts w))
              (out w ++ [Changed n current_phone new_phone]))
  end.
Proof.
  unfold change_contact, change_contact_undecorated, input_error, bind, gets.
  simpl.
  destruct (Dict.get n (contacts w)) as [cur|]; [|reflexivity].
  destruct (String.eqb new_phone cur); reflexivity.
Qed.

Lemma show_phone_one n w :
  show_phone [n] w =
  match Dict.get n (contacts w) with
  | None =>
      (Ret tt,
       mkWorld (contacts w)
         (out w ++ [ErrorReport ContactNotFound
                      (KeyError ("Name '" ++ n ++ "' not found."))]))
  | Some phone => (Ret tt, mkWorld (contacts w) (out w ++ [PhoneNumber n phone]))
  end.
Proof.
  unfold show_phone, show_phone_undecorated, input_error, bind, gets. simpl.
  destruct (Dict.get n (contacts w)); reflexivity.
Qed.

(** ** Wrong arity *)

Lemma add_contact_arity args w :
  List.length args <> 2 ->
  add_contact args w
  = (Ret tt,
     mkWorld (contacts w)
       (out w ++ [ErrorReport IncorrectArguments
                    (ValueError "Usage: add [name] [phone number]")])).
Proof.
  intros H. apply Nat.eqb_neq in H.
  unfold add_contact, add_contact_undecorated, input_error. rewrite H.
  reflexivity.
Qed.

Lemma change_contact_arity args w :
  List.length args <> 2 ->
  change_contact args w
  = (Ret tt,
     mkWorld (contacts w)
       (out w ++ [ErrorReport IncorrectArguments
                    (ValueError "Usage: change [name] [new phone number]")])).
Proof.
  intros H. apply Nat.eqb_neq in H.
  unfold change_contact, change_contact_undecorated, input_error. rewrite H.
  reflexivity.
Qed.

Lemma show_phone_arity args w :
  List.length args <> 1 ->
  show_phone args w
  = (Ret tt,
     mkWorld (contacts w)
       (out w ++ [ErrorReport IncorrectArguments
                    (ValueError "Usage: phone [name]")])).
Proof.
  intros H. apply Nat.eqb_neq in H.
  unfold show_phone, show_phone_undecorated, input_error. rewrite H.
  reflexivity.
Qed.

(** ** Listing *)

Lemma print_items_run items w :
  print_items items w
  = (Ret tt,
     mkWorld (contacts w)
       (out w ++ map (fun '(n, phone) => ContactLine n phone) items)).
Proof.
  revert w. induction items as [|[n phone] items IH]; intros [cs o]; simpl.
  - unfold ret. rewrite List.app_nil_r. reflexivity.
  - unfold bind, print, modify. simpl. rewrite IH. simpl.
    rewrite <- List.app_assoc. reflexivity.
Qed.

Lemma show_all_contacts_run w :
  show_all_contacts w =
  match contacts w with
  | [] =>
      (Ret tt,
       mkWorld (contacts w)
         (out w ++ [ErrorReport IndexOutOfRange
                      (IndexError "No contacts available.")]))
  | _ :: _ =>
      (Ret tt,
       mkWorld (contacts w)
         (out w ++ map (fun '(n, phone) => ContactLine n phone) (contacts w)))
  end.
Proof.
  unfold show_all_contacts, show_all_contacts_undecorated, input_error, bind, gets.
  destruct (contacts w) as [|item items] eqn:E.
  - unfold raise, print, modify. rewrite E. reflexivity.
  - rewrite print_items_run, E. reflexivity.
Qed.

(** ** A turn of the loop *)

Lemma parse_input_strip (line : string) :
  parse_input (strip line) = parse_input line.
Proof.
  unfold parse_input. rewrite lower_strip, split_strip. reflexivity.
Qed.

Lemma step_dispatch (line : string) (w : world) :
  step line w
  = handle_command command_handlers (fst (parse_input line))
      (Some (snd (parse_input line))) w.
Proof.
  unfold step. rewrite parse_input_strip.
  destruct (parse_input line). reflexivity.
Qed.

Lemma parse_two (a b : string) :
  token a = true -> token b = true ->
  parse_input (a ++ " " ++ b) = (lower a, [lower b]).
Proof.
  intros Ha Hb. unfold parse_input.
  change (a ++ " " ++ b)%string with (a ++ (" " ++ b))%string.
  rewrite lower_app. change (lower (" " ++ b)) with (" " ++ lower b)%string.
  rewrite split_two by (rewrite token_lower; assumption). reflexivity.
Qed.

Lemma parse_three (a b c : string) :
  token a = true -> token b = true -> token c = true ->
  parse_input (a ++ " " ++ b ++ " " ++ c) = (lower a, [lower b; lower c]).
Proof.
  intros Ha Hb Hc. unfold parse_input.
  rewrite lower_app. change (lower (" " ++ b ++ " " ++ c))
    with (" " ++ lower (b ++ " " ++ c))%string.
  rewrite lower_app. change (lower (" " ++ c)) with (" " ++ lower c)%string.
  rewrite split_three by (rewrite token_lower; assumption). reflexivity.
Qed.

End LoopFacts.

(* ================================================================== *)
(** * Phone *)

Section PhoneSpec.
Import PyStr PyStrFacts.

Lemma isdigit_all (s : string) :
  isdigit s = true -> all isdigit_char s = true.
Proof. destruct s; [discriminate | auto]. Qed.

(** [Phone.__init__] in closed form: the call to [strip] changes nothing,
    as a string of digits has no white space. *)
Lemma Phone_init_eq (s : string) :
  Phone_init s =
  if (len s =? 10) && all isdigit_char s
  then Ret (mkField s)
  else Raise (ValueError "Phone number must be 10 digits").
Proof.
  unfold Phone_init. destruct (isdigit s) eqn:D; simpl.
  - pose proof (isdigit_all s D) as Hall.
    rewrite (strip_nospace s (digits_nospace s Hall)), Hall, andb_true_r.
    destruct (len s =? 10); reflexivity.
  - destruct s as [|c s].
    + reflexivity.
    + unfold isdigit in D. rewrite D, andb_false_r. reflexivity.
Qed.

Lemma all_ascii_digit_decimal (s : string) :
  all is_ascii_char s = true -> all isdigit_char s = all isdecimal_char s.
Proof.
  induction s as [|c s IH]; simpl; auto.
  intros H. apply andb_true_iff in H as [Hc Hs].
  rewrite (ascii_digit_decimal c Hc), (IH Hs). reflexivity.
Qed.

(** C1, counterexample: ten times the superscript two (U+00B2) is a string
    of ten characters none of which is a decimal digit, and [Phone] accepts
    it, because [str.isdigit] holds of it. *)
Lemma Phone_init_accepts_superscripts :
  ~ Phone_accepts_exactly_decimal (repeat_char "178" 10).
Proof.
  intros [_ Hfail]. destruct Hfail as [m Hm].
  - intros [_ Hdec]. vm_compute in Hdec. discriminate.
  - vm_compute in Hm. discriminate.
Qed.

(** C1, as amended: [Phone] construction succeeds exactly on the strings of
    ten characters that are all digits in the sense of [str.isdigit], and
    raises [ValueError] on every other string; on strings of ASCII
    characters these are exactly the strings of ten decimal digits. *)
Theorem Phone_init_accepts_ten_digits (s : string) :
  Phone_init s =
    (if (len s =? 10) && all isdigit_char s
     then Ret (mkField s)
     else Raise (ValueError "Phone number must be 10 digits"))
  /\ (all is_ascii_char s = true -> Phone_accepts_exactly_decimal s).
Proof.
  split; [apply Phone_init_eq|].
  intros Hascii. unfold Phone_accepts_exactly_decimal, ten_decimal_digits.
  rewrite Phone_init_eq, (all_ascii_digit_decimal s Hascii). split.
  - intros [Hlen Hdec]. rewrite Hlen, Hdec. reflexivity.
  - intros Hnot. destruct (len s =? 10) eqn:L; simpl; [|eauto].
    destruct (all isdecimal_char s) eqn:Hdec; [|eauto].
    exfalso. apply Hnot. split; [apply Nat.eqb_eq, L | reflexivity].
Qed.

Lemma Phone_init_accepts_ten_digits_witness :
  all is_ascii_char "1234567890" = true
  /\ Phone_init "1234567890" = Ret (mkField "1234567890")
  /\ Phone_accepts_exactly_decimal "1234567890".
Proof.
  split; [reflexivity|]. split.
  - exact (proj1 (Phone_init_accepts_ten_digits "1234567890")).
  - apply (proj2 (Phone_init_accepts_ten_digits "1234567890")). reflexivity.
Defined.

End PhoneSpec.

(* ================================================================== *)
(** * Record and AddressBook *)

Section RecordSpec.
Import DictFacts.

Lemma remove_first_absent (phone : string) (ps : list Phone) :
  List.find (fun p => String.eqb (value p) phone) ps = None ->
  remove_first phone ps = ps.
Proof.
  induction ps as [|p ps IH]; simpl; auto.
  destruct (String.eqb (value p) phone); [discriminate|].
  intros H. rewrite (IH H). reflexivity.
Qed.

Lemma edit_phone_valid (r : Record_) (old_phone new_phone : string) :
  Phone_init new_phone = Ret (mkField new_phone) ->
  edit_phone old_phone new_phone r
  = (Ret tt,
     set_phones (remove_first old_phone (phones r) ++ [mkField new_phone]) r).
Proof.
  intros Hnew. unfold edit_phone, remove_phone, add_phone, bind, modify, lift.
  rewrite Hnew. reflexivity.
Qed.

(** C7: [edit_phone(old, new)] is [remove_phone(old)], which never fails,
    followed by [add_phone(new)] on the record so changed; for a valid phone
    [new] the phone list becomes the list without the first [old], with
    [new] at the end, and when [old] is not in the list, the list it was
    with [new] at the end. *)
Theorem edit_phone_remove_then_add (r : Record_) (old_phone new_phone : string) :
  fst (remove_phone old_phone r) = Ret tt
  /\ edit_phone old_phone new_phone r
     = add_phone new_phone (snd (remove_phone old_phone r))
  /\ (Phone_init new_phone = Ret (mkField new_phone) ->
      edit_phone old_phone new_phone r
      = (Ret tt,
         set_phones (remove_first old_phone (phones r) ++ [mkField new_phone]) r)
      /\ (find_phone old_phone r = None ->
          phones (snd (edit_phone old_phone new_phone r))
          = phones r ++ [mkField new_phone])).
Proof.
  split; [reflexivity|]. split; [reflexivity|].
  intros Hnew. split; [apply edit_phone_valid, Hnew|].
  intros Habsent. rewrite (edit_phone_valid _ _ _ Hnew). simpl.
  unfold find_phone in Habsent.
  rewrite (remove_first_absent _ _ Habsent). reflexivity.
Qed.

Lemma edit_phone_remove_then_add_witness :
  Phone_init "0987654321" = Ret (mkField "0987654321")
  /\ find_phone "5555555555" (mkRecord (mkField "john") [mkField "1234567890"])
     = None
  /\ phones (snd (edit_phone "5555555555" "0987654321"
                    (mkRecord (mkField "john") [mkField "1234567890"])))
     = [mkField "1234567890"; mkField "0987654321"].
Proof.
  split; [reflexivity|]. split; [reflexivity|].
  apply (edit_phone_remove_then_add
           (mkRecord (mkField "john") [mkField "1234567890"])
           "5555555555" "0987654321"); reflexivity.
Defined.

(** C8: [delete(name)] removes the entry of [name] when [name] is a key of
    the book, the other entries staying as they are; when [name] is not a
    key it raises [KeyError] and the book is unchanged. *)
Theorem delete_removes_or_raises (book : AddressBook) (n : string) :
  (find n book <> None ->
     delete n book = (Ret tt, Dict.del n book)
     /\ find n (Dict.del n book) = None
     /\ (forall k, k <> n -> find k (Dict.del n book) = find k book))
  /\ (find n book = None ->
     delete n book
     = (Raise (KeyError ("Record with name '" ++ n ++ "' not found")), book)).
Proof.
  unfold find, delete, bind, gets, Dict.mem. split.
  - intros Hin. destruct (Dict.get n book); [|contradiction Hin; reflexivity].
    split; [reflexivity|]. split.
    + apply get_del_same.
    + intros k Hk. apply get_del_other. congruence.
  - intros ->. reflexivity.
Qed.

Lemma delete_removes_or_raises_witness :
  (find "john" [("john", mkRecord (mkField "john") [])] <> None
   /\ delete "john" [("john", mkRecord (mkField "john") [])] = (Ret tt, []))
  /\ (find "jane" [("john", mkRecord (mkField "john") [])] = None
      /\ delete "jane" [("john", mkRecord (mkField "john") [])]
         = (Raise (KeyError "Record with name 'jane' not found"),
            [("john", mkRecord (mkField "john") [])])).
Proof.
  split.
  - split; [discriminate|].
    apply (proj1 (delete_removes_or_raises
                    [("john", mkRecord (mkField "john") [])] "john")).
    discriminate.
  - split; [reflexivity|].
    apply (proj2 (delete_removes_or_raises
                    [("john", mkRecord (mkField "john") [])] "jane")).
    reflexivity.
Defined.

End RecordSpec.

(* ================================================================== *)
(** * The commands of the loop *)

Section CommandSpec.
Import PyStr PyStrFacts SplitFacts DictFacts LoopFacts.

(** C2: the [add] command with the two arguments [n] and [phone].  A name
    that is not in the contacts is inserted with the phone, at the end of
    the dictionary; for a name stored with the same phone the message says
    that it already exists and the dictionary is what it was; for a name
    stored with another phone the message names the stored phone and points
    to [change], and the dictionary is what it was. *)
Theorem add_command_cases (n phone : string) (w : world) :
  (Dict.get n (contacts w) = None ->
     handle_command command_handlers "add" (Some [n; phone]) w
     = (Ret tt,
        mkWorld (Dict.set n phone (contacts w)) (out w ++ [Added n phone]))
     /\ Dict.set n phone (contacts w) = contacts w ++ [(n, phone)]
     /\ Dict.get n (Dict.set n phone (contacts w)) = Some phone)
  /\ (Dict.get n (contacts w) = Some phone ->
     handle_command command_handlers "add" (Some [n; phone]) w
     = (Ret tt, mkWorld (contacts w) (out w ++ [AlreadyExists n phone])))
  /\ (forall current_phone,
     Dict.get n (contacts w) = Some current_phone -> current_phone <> phone ->
     handle_command command_handlers "add" (Some [n; phone]) w
     = (Ret tt, mkWorld (contacts w) (out w ++ [AlreadyAdded n current_phone]))).
Proof.
  rewrite dispatch_add, add_contact_two. repeat split.
  - rewrite H. reflexivity.
  - apply set_absent, H.
  - apply get_set_same.
  - intros ->. rewrite String.eqb_refl. reflexivity.
  - intros cur -> Hne. apply String.eqb_neq in Hne. rewrite Hne. reflexivity.
Qed.

Lemma add_command_cases_witness :
  (Dict.get "alice" (contacts world0) = None
   /\ handle_command command_handlers "add" (Some ["alice"; "1234567890"]) world0
      = (Ret tt, mkWorld [("alice", "1234567890")] [Added "alice" "1234567890"]))
  /\ (Dict.get "alice" [("alice", "1234567890")] = Some "1234567890"
      /\ handle_command command_handlers "add" (Some ["alice"; "1234567890"])
           (mkWorld [("alice", "1234567890")] [])
         = (Ret tt,
            mkWorld [("alice", "1234567890")]
              [AlreadyExists "alice" "1234567890"]))
  /\ (Dict.get "alice" [("alice", "1234567890")] = Some "1234567890"
      /\ "1234567890" <> "9999999999"
      /\ handle_command command_handlers "add" (Some ["alice"; "9999999999"])
           (mkWorld [("alice", "1234567890")] [])
         = (Ret tt,
            mkWorld [("alice", "1234567890")]
              [AlreadyAdded "alice" "1234567890"])).
Proof.
  split; [|split].
  - split; [reflexivity|].
    apply (proj1 (add_command_cases "alice" "1234567890" world0)). reflexivity.
  - split; [reflexivity|].
    apply (proj1 (proj2 (add_command_cases "alice" "1234567890"
                           (mkWorld [("alice", "1234567890")] [])))).
    reflexivity.
  - split; [reflexivity|]. split; [discriminate|].
    apply (proj2 (proj2 (add_command_cases "alice" "9999999999"
                           (mkWorld [("alice", "1234567890")] [])))
             "1234567890"); [reflexivity | discriminate].
Defined.

(** C3: the [change] command with the two arguments [n] and [new_phone].
    For a name that is not in the contacts the handler raises [KeyError],
    reported as "Contact not found", and the dictionary is what it was; for
    the phone already stored the message says that nothing was changed and
    the dictionary is what it was; otherwise the phone stored for the name
    becomes [new_phone] and the other names keep theirs. *)
Theorem change_command_cases (n new_phone : string) (w : world) :
  (Dict.get n (contacts w) = None ->
     change_contact_undecorated [n; new_phone] w
     = (Raise (KeyError ("Name '" ++ n ++ "' not found.")), w)
     /\ handle_command command_handlers "change" (Some [n; new_phone]) w
        = (Ret tt,
           mkWorld (contacts w)
             (out w ++ [ErrorReport ContactNotFound
                          (KeyError ("Name '" ++ n ++ "' not found."))])))
  /\ (Dict.get n (contacts w) = Some new_phone ->
     handle_command command_handlers "change" (Some [n; new_phone]) w
     = (Ret tt, mkWorld (contacts w) (out w ++ [NoChanges n new_phone])))
  /\ (forall current_phone,
     Dict.get n (contacts w) = Some current_phone ->
     current_phone <> new_phone ->
     handle_command command_handlers "change" (Some [n; new_phone]) w
     = (Ret tt,
        mkWorld (Dict.set n new_phone (contacts w))
          (out w ++ [Changed n current_phone new_phone]))
     /\ Dict.get n (Dict.set n new_phone (contacts w)) = Some new_phone
     /\ (forall k, k <> n ->
         Dict.get k (Dict.set n new_phone (contacts w)) = Dict.get k (contacts w))).
Proof.
  rewrite dispatch_change, change_contact_two. repeat split.
  - unfold change_contact_undecorated, bind, gets. simpl. rewrite H.
    reflexivity.
  - rewrite H. reflexivity.
  - intros ->. rewrite String.eqb_refl. reflexivity.
  - rewrite H. apply not_eq_sym, String.eqb_neq in H0. rewrite H0.
    reflexivity.
  - apply get_set_same.
  - intros k Hk. apply get_set_other. congruence.
Qed.

Lemma change_command_cases_witness :
  (Dict.get "bob" (contacts world0) = None
   /\ handle_command command_handlers "change" (Some ["bob"; "1234567890"]) world0
      = (Ret tt,
         mkWorld []
           [ErrorReport ContactNotFound (KeyError "Name 'bob' not found.")]))
  /\ (Dict.get "bob" [("bob", "1234567890")] = Some "1234567890"
      /\ handle_command command_handlers "change" (Some ["bob"; "1234567890"])
           (mkWorld [("bob", "1234567890")] [])
         = (Ret tt,
            mkWorld [("bob", "1234567890")] [NoChanges "bob" "1234567890"]))
  /\ (Dict.get "bob" [("bob", "1234567890")] = Some "1234567890"
      /\ "1234567890" <> "9999999999"
      /\ handle_command command_handlers "change" (Some ["bob"; "9999999999"])
           (mkWorld [("bob", "1234567890")] [])
         = (Ret tt,
            mkWorld [("bob", "9999999999")]
              [Changed "bob" "1234567890" "9999999999"])).
Proof.
  split; [|split].
  - split; [reflexivity|].
    apply (proj1 (change_command_cases "bob" "1234567890" world0)).
    reflexivity.
  - split; [reflexivity|].
    apply (proj1 (proj2 (change_command_cases "bob" "1234567890"
                           (mkWorld [("bob", "1234567890")] [])))).
    reflexivity.
  - split; [reflexivity|]. split; [discriminate|].
    apply (proj2 (proj2 (change_command_cases "bob" "9999999999"
                           (mkWorld [("bob", "1234567890")] [])))
             "1234567890"); [reflexivity | discriminate].
Defined.

(** C5: on an empty dictionary [all] raises [IndexError], reported as the
    empty-collection error; after one successful [add] on the empty
    dictionary [all] prints one line, that of the entry added. *)
Theorem all_command_empty_then_one (n phone : string) (args args' : list string)
    (w : world) :
  contacts w = Dict.empty ->
  show_all_contacts_undecorated w
  = (Raise (IndexError "No contacts available."), w)
  /\ handle_command command_handlers "all" (Some args) w
     = (Ret tt,
        mkWorld Dict.empty
          (out w ++ [ErrorReport IndexOutOfRange
                       (IndexError "No contacts available.")]))
  /\ handle_command command_handlers "add" (Some [n; phone]) w
     = (Ret tt, mkWorld [(n, phone)] (out w ++ [Added n phone]))
  /\ handle_command command_handlers "all" (Some args')
       (snd (handle_command command_handlers "add" (Some [n; phone]) w))
     = (Ret tt,
        mkWorld [(n, phone)] (out w ++ [Added n phone; ContactLine n phone])).
Proof.
  intros Hempty.
  rewrite !dispatch_all, dispatch_add, add_contact_two, show_all_contacts_run.
  unfold show_all_contacts_undecorated, bind, gets.
  rewrite Hempty. simpl. repeat split.
  rewrite show_all_contacts_run. simpl.
  rewrite <- List.app_assoc. reflexivity.
Qed.

Lemma all_command_empty_then_one_witness :
  contacts world0 = Dict.empty
  /\ handle_command command_handlers "all" (Some []) world0
     = (Ret tt,
        mkWorld []
          [ErrorReport IndexOutOfRange (IndexError "No contacts available.")])
  /\ handle_command command_handlers "all" (Some [])
       (snd (handle_command command_handlers "add"
               (Some ["alice"; "1234567890"]) world0))
     = (Ret tt,
        mkWorld [("alice", "1234567890")]
          [Added "alice" "1234567890"; ContactLine "alice" "1234567890"]).
Proof.
  split; [reflexivity|].
  pose proof (all_command_empty_then_one "alice" "1234567890" [] [] world0
                eq_refl) as H.
  split; [exact (proj1 (proj2 H)) | exact (proj2 (proj2 (proj2 H)))].
Defined.

End CommandSpec.

(* ================================================================== *)
(** * Dispatch and the error wrapper *)

Section DispatchSpec.
Import PyStr PyStrFacts SplitFacts DictFacts LoopFacts.

Lemma input_error_returns (h : M world unit) (w : world) :
  fst (h w) = Ret tt -> fst (input_error h w) = Ret tt.
Proof.
  unfold input_error. destruct (h w) as [[[]|e] w']; simpl; auto.
  discriminate.
Qed.

Lemma hello_returns w : fst (hello w) = Ret tt.
Proof. reflexivity. Qed.

Lemma add_contact_returns args w : fst (add_contact args w) = Ret tt.
Proof.
  destruct args as [|a [|b [|c l]]]; try reflexivity.
  rewrite add_contact_two.
  destruct (Dict.get a (contacts w)) as [cur|]; [|reflexivity].
  destruct (String.eqb cur b); reflexivity.
Qed.

Lemma change_contact_returns args w : fst (change_contact args w) = Ret tt.
Proof.
  destruct args as [|a [|b [|c l]]]; try reflexivity.
  rewrite change_contact_two.
  destruct (Dict.get a (contacts w)) as [cur|]; [|reflexivity].
  destruct (String.eqb b cur); reflexivity.
Qed.

Lemma show_phone_returns args w : fst (show_phone args w) = Ret tt.
Proof.
  destruct args as [|a [|b l]]; try reflexivity.
  rewrite show_phone_one.
  destruct (Dict.get a (contacts w)); reflexivity.
Qed.

Lemma show_all_contacts_returns w : fst (show_all_contacts w) = Ret tt.
Proof.
  rewrite show_all_contacts_run. destruct (contacts w); reflexivity.
Qed.

Ltac case_command command :=
  match goal with
  | |- context [String.eqb command ?s] =>
      let E := fresh "E" in
      destruct (String.eqb command s) eqn:E;
      [apply String.eqb_eq in E; subst command | clear E]
  end.

(** With the table of [main], a dispatch leaves by [SystemExit] on the
    three exit commands and returns on every other command. *)
Lemma handle_command_outcome command args w :
  fst (handle_command command_handlers command args w)
  = if exit_command command then Raise SystemExit else Ret tt.
Proof.
  unfold handle_command, handle_command_undecorated, exit_command,
    command_handlers.
  cbn [Dict.get].
  repeat case_command command; cbn [String.eqb Ascii.eqb Bool.eqb orb];
    try reflexivity;
    try (apply input_error_returns;
         first [ apply hello_returns | apply add_contact_returns
               | apply change_contact_returns | apply show_phone_returns
               | apply show_all_contacts_returns ]).
Qed.

(** C4, counterexample: the unknown command [foo] is reported as an
    incorrect command, the wrong-arity call [add alice] as incorrect
    arguments. *)
Lemma unknown_command_differs_from_wrong_arity :
  ~ same_class_as_wrong_arity "foo" "add alice" world0.
Proof.
  unfold same_class_as_wrong_arity. vm_compute. discriminate.
Qed.

(** C4, as amended: a line whose first token is not a command of the table
    makes dispatch raise [TypeError], which the wrapper of [handle_command]
    catches and reports as "Incorrect command", followed by the help text,
    the contacts staying as they are; a call of [add], [change] or [phone]
    with the wrong number of arguments is reported as "Incorrect arguments",
    another message, and without the help text; whatever the table, no
    exception but [SystemExit] leaves [handle_command], and with the table
    of [main] it does so exactly on [close], [exit] and [quit]. *)
Theorem dispatch_reports_or_exits :
  (forall line w,
     recognized (fst (parse_input line)) = false ->
     handle_command_undecorated command_handlers (fst (parse_input line))
       (Some (snd (parse_input line))) w
     = (Raise (TypeError ("Unknown command '" ++ fst (parse_input line) ++ "'")), w)
     /\ step line w
        = (Ret tt,
           mkWorld (contacts w)
             (out w ++ [ErrorReport IncorrectCommand
                          (TypeError ("Unknown command '"
                                      ++ fst (parse_input line) ++ "'"));
                        HelpText])))
  /\ (forall args w,
     List.length args <> 2 ->
     handle_command command_handlers "add" (Some args) w
     = (Ret tt,
        mkWorld (contacts w)
          (out w ++ [ErrorReport IncorrectArguments
                       (ValueError "Usage: add [name] [phone number]")]))
     /\ handle_command command_handlers "change" (Some args) w
        = (Ret tt,
           mkWorld (contacts w)
             (out w ++ [ErrorReport IncorrectArguments
                          (ValueError "Usage: change [name] [new phone number]")])))
  /\ (forall args w,
     List.length args <> 1 ->
     handle_command command_handlers "phone" (Some args) w
     = (Ret tt,
        mkWorld (contacts w)
          (out w ++ [ErrorReport IncorrectArguments
                       (ValueError "Usage: phone [name]")])))
  /\ headline IncorrectCommand <> headline IncorrectArguments
  /\ (forall handlers command args w,
     fst (handle_command handlers command args w) = Ret tt
     \/ fst (handle_command handlers command args w) = Raise SystemExit)
  /\ (forall command args w,
     fst (handle_command command_handlers command args w)
     = if exit_command command then Raise SystemExit else Ret tt).
Proof.
  split; [|split; [|split; [|split; [|split]]]].
  - intros line w Hunknown. split.
    + unfold handle_command_undecorated.
      unfold recognized, Dict.mem in Hunknown.
      destruct (Dict.get (fst (parse_input line)) command_handlers);
        [discriminate | reflexivity].
    + rewrite step_dispatch. apply dispatch_unknown, Hunknown.
  - intros args w Hlen. split.
    + rewrite dispatch_add. apply add_contact_arity, Hlen.
    + rewrite dispatch_change. apply change_contact_arity, Hlen.
  - intros args w Hlen. rewrite dispatch_phone. apply show_phone_arity, Hlen.
  - discriminate.
  - intros handlers command args w. unfold handle_command.
    destruct (input_error_outcome
                (handle_command_undecorated handlers command args) w)
      as [H|[H _]]; auto.
  - apply handle_command_outcome.
Qed.

Lemma dispatch_reports_or_exits_witness :
  recognized (fst (parse_input "foo")) = false
  /\ step "foo" world0
     = (Ret tt,
        mkWorld []
          [ErrorReport IncorrectCommand (TypeError "Unknown command 'foo'");
           HelpText])
  /\ List.length ["alice"] <> 2
  /\ handle_command command_handlers "add" (Some ["alice"]) world0
     = (Ret tt,
        mkWorld []
          [ErrorReport IncorrectArguments
             (ValueError "Usage: add [name] [phone number]")]).
Proof.
  split; [reflexivity|]. split.
  - apply (proj1 dispatch_reports_or_exits "foo" world0). reflexivity.
  - split; [discriminate|].
    apply (proj1 (proj2 dispatch_reports_or_exits) ["alice"] world0).
    discriminate.
Defined.

End DispatchSpec.

(* ================================================================== *)
(** * Parsing: letter case and blank lines *)

Section ParseSpec.
Import PyStr PyStrFacts SplitFacts DictFacts LoopFacts.

Lemma all_lower_fixed (s : string) :
  all is_lower_char s = true -> lower s = s.
Proof.
  induction s as [|c s IH]; simpl; auto.
  intros H. apply andb_true_iff in H as [Hc Hs].
  apply Ascii.eqb_eq in Hc. rewrite Hc, (IH Hs). reflexivity.
Qed.

Lemma lower_all_lower (s : string) : all is_lower_char (lower s) = true.
Proof.
  induction s as [|c s IH]; simpl; auto.
  unfold is_lower_char at 1. rewrite lower_char_idem, Ascii.eqb_refl. exact IH.
Qed.

Lemma split_lower_fixed (s : string) :
  Forall (fun t => lower t = t) (split (lower s)).
Proof.
  eapply Forall_impl; [intros t; apply all_lower_fixed|].
  apply split_from_all; [reflexivity | apply lower_all_lower].
Qed.

(** What [parse_input] returns is in lower case. *)
Lemma parse_input_lowercase (line : string) :
  Forall (fun t => lower t = t) (fst (parse_input line) :: snd (parse_input line)).
Proof.
  unfold parse_input. simpl.
  pose proof (split_lower_fixed line) as H.
  destruct (split (lower line)) as [|p [|q l]]; simpl.
  - repeat constructor.
  - inversion H; subst. repeat constructor; assumption.
  - inversion H; subst. constructor; assumption.
Qed.

Lemma isdigit_token (s : string) : isdigit s = true -> token s = true.
Proof.
  intros H. unfold token. rewrite (digits_nospace s (isdigit_all s H)).
  destruct s; [discriminate | reflexivity].
Qed.

Lemma session_two (l1 l2 : string) (w : world) :
  fst (step l1 w) = Ret tt ->
  session [l1; l2] w = step l2 (snd (step l1 w)).
Proof.
  simpl. unfold bind at 1. destruct (step l1 w) as [[[]|e] w1]; simpl.
  - intros _. unfold bind, ret. destruct (step l2 w1) as [[[]|e] w2]; reflexivity.
  - discriminate.
Qed.

(** C6: the line is put in lower case before it is split, so the command
    and the arguments that reach a handler are in lower case, whatever the
    case typed.  For the names [n] and [n'] that differ by letter case only
    and a phone of digits, on contacts without the name, the lines
    [add n phone] and [phone n'] store the phone under the name in lower
    case and then report that phone. *)
Theorem lookup_ignores_letter_case (n n' phone : string) (w : world) :
  (forall line,
     parse_input (lower line) = parse_input line
     /\ Forall (fun t => lower t = t)
          (fst (parse_input line) :: snd (parse_input line)))
  /\ (token n = true -> token n' = true -> lower n = lower n' ->
      isdigit phone = true ->
      Dict.get (lower n) (contacts w) = None ->
      parse_input ("add " ++ n ++ " " ++ phone) = ("add", [lower n; phone])
      /\ parse_input ("phone " ++ n') = ("phone", [lower n])
      /\ session [("add " ++ n ++ " " ++ phone)%string;
                  ("phone " ++ n')%string] w
         = (Ret tt,
            mkWorld (Dict.set (lower n) phone (contacts w))
              (out w ++ [Added (lower n) phone; PhoneNumber (lower n) phone]))).
Proof.
  split.
  - intros line. split; [|apply parse_input_lowercase].
    unfold parse_input. rewrite lower_idem. reflexivity.
  - intros Hn Hn' Hcase Hphone Habsent.
    assert (Hadd : parse_input ("add " ++ n ++ " " ++ phone)
                   = ("add", [lower n; phone])).
    { change ("add " ++ n ++ " " ++ phone)%string
        with ("add" ++ " " ++ n ++ " " ++ phone)%string.
      rewrite parse_three by (auto using isdigit_token).
      rewrite (lower_digits phone (isdigit_all phone Hphone)). reflexivity. }
    assert (Hshow : parse_input ("phone " ++ n') = ("phone", [lower n])).
    { change ("phone " ++ n')%string with ("phone" ++ " " ++ n')%string.
      rewrite parse_two by auto. rewrite <- Hcase. reflexivity. }
    split; [exact Hadd|]. split; [exact Hshow|].
    assert (Hstep1 : step ("add " ++ n ++ " " ++ phone) w
                     = (Ret tt,
                        mkWorld (Dict.set (lower n) phone (contacts w))
                          (out w ++ [Added (lower n) phone]))).
    { rewrite step_dispatch, Hadd. cbn [fst snd].
      rewrite dispatch_add, add_contact_two, Habsent. reflexivity. }
    rewrite session_two by (rewrite Hstep1; reflexivity).
    rewrite Hstep1. cbn [snd].
    rewrite step_dispatch, Hshow. cbn [fst snd].
    rewrite dispatch_phone, show_phone_one. cbn [contacts out].
    rewrite get_set_same, <- List.app_assoc. reflexivity.
Qed.

Lemma lookup_ignores_letter_case_witness :
  (token "Alice" = true /\ token "ALICE" = true
   /\ lower "Alice" = lower "ALICE" /\ isdigit "1234567890" = true
   /\ Dict.get (lower "Alice") (contacts world0) = None)
  /\ session ["add Alice 1234567890"; "phone ALICE"] world0
     = (Ret tt,
        mkWorld [("alice", "1234567890")]
          [Added "alice" "1234567890"; PhoneNumber "alice" "1234567890"]).
Proof.
  split; [repeat split|].
  apply (proj2 (lookup_ignores_letter_case "Alice" "ALICE" "1234567890" world0));
    reflexivity.
Defined.

(** C9: [add] and [change] take the phone as it comes.  For a name that is
    not in the contacts [add] stores any second argument and reports the
    addition, and for a name that is there [change] stores any other second
    argument; so does a line [add n phone] of two tokens, in lower case.
    [Phone], which rejects ['abc'] and ['123'], is not called. *)
Theorem add_and_change_do_not_validate (n phone : string) (w : world) :
  (Dict.get n (contacts w) = None ->
     handle_command command_handlers "add" (Some [n; phone]) w
     = (Ret tt,
        mkWorld (Dict.set n phone (contacts w)) (out w ++ [Added n phone]))
     /\ Dict.get n (Dict.set n phone (contacts w)) = Some phone)
  /\ (forall current_phone,
     Dict.get n (contacts w) = Some current_phone -> current_phone <> phone ->
     handle_command command_handlers "change" (Some [n; phone]) w
     = (Ret tt,
        mkWorld (Dict.set n phone (contacts w))
          (out w ++ [Changed n current_phone phone]))
     /\ Dict.get n (Dict.set n phone (contacts w)) = Some phone)
  /\ (token n = true -> token phone = true ->
      Dict.get (lower n) (contacts w) = None ->
      step ("add " ++ n ++ " " ++ phone) w
      = (Ret tt,
         mkWorld (Dict.set (lower n) (lower phone) (contacts w))
           (out w ++ [Added (lower n) (lower phone)])))
  /\ Phone_init "abc" = Raise (ValueError "Phone number must be 10 digits")
  /\ Phone_init "123" = Raise (ValueError "Phone number must be 10 digits").
Proof.
  split; [|split; [|split; [|split; reflexivity]]].
  - intros Habsent. rewrite dispatch_add, add_contact_two, Habsent.
    split; [reflexivity | apply get_set_same].
  - intros cur Hcur Hne.
    rewrite dispatch_change, change_contact_two, Hcur.
    apply not_eq_sym, String.eqb_neq in Hne. rewrite Hne.
    split; [reflexivity | apply get_set_same].
  - intros Hn Hphone Habsent.
    change ("add " ++ n ++ " " ++ phone)%string
      with ("add" ++ " " ++ n ++ " " ++ phone)%string.
    rewrite step_dispatch, parse_three by auto. cbn [fst snd].
    change (lower "add") with "add".
    rewrite dispatch_add, add_contact_two, Habsent. reflexivity.
Qed.

Lemma add_and_change_do_not_validate_witness :
  (Dict.get "bob" (contacts world0) = None
   /\ handle_command command_handlers "add" (Some ["bob"; "abc"]) world0
      = (Ret tt, mkWorld [("bob", "abc")] [Added "bob" "abc"]))
  /\ (Dict.get "bob" [("bob", "abc")] = Some "abc" /\ "abc" <> "123"
      /\ handle_command command_handlers "change" (Some ["bob"; "123"])
           (mkWorld [("bob", "abc")] [])
         = (Ret tt, mkWorld [("bob", "123")] [Changed "bob" "abc" "123"]))
  /\ (token "Bob" = true /\ token "ABC" = true
      /\ step "add Bob ABC" world0
         = (Ret tt, mkWorld [("bob", "abc")] [Added "bob" "abc"])).
Proof.
  split; [|split].
  - split; [reflexivity|].
    apply (proj1 (add_and_change_do_not_validate "bob" "abc" world0)).
    reflexivity.
  - split; [reflexivity|]. split; [discriminate|].
    apply (proj1 (proj2 (add_and_change_do_not_validate "bob" "123"
                           (mkWorld [("bob", "abc")] []))) "abc");
      [reflexivity | discriminate].
  - split; [reflexivity|]. split; [reflexivity|].
    apply (proj1 (proj2 (proj2
             (add_and_change_do_not_validate "Bob" "ABC" world0))));
      reflexivity.
Defined.

(** C10: a line that is empty or made of white space only parses, stripped
    or not, to the empty command without arguments; the empty string is not
    a command of the table, so the turn reports an incorrect command and
    prints the help text, and the contacts are what they were. *)
Theorem blank_line_is_unknown_command (line : string) (w : world) :
  all isspace_char line = true ->
  parse_input line = ("", [])
  /\ parse_input (strip line) = ("", [])
  /\ recognized "" = false
  /\ step line w
     = (Ret tt,
        mkWorld (contacts w)
          (out w ++ [ErrorReport IncorrectCommand
                       (TypeError "Unknown command ''");
                     HelpText])).
Proof.
  intros Hblank.
  assert (Hparse : parse_input line = ("", [])).
  { unfold parse_input. rewrite split_spaces; [reflexivity|].
    rewrite <- Hblank. clear Hblank.
    induction line as [|c s IH]; simpl; auto.
    rewrite isspace_lower_char, IH. reflexivity. }
  split; [exact Hparse|]. split; [rewrite parse_input_strip; exact Hparse|].
  split; [reflexivity|].
  rewrite step_dispatch, Hparse. cbn [fst snd].
  rewrite dispatch_unknown by reflexivity. reflexivity.
Qed.

Lemma blank_line_is_unknown_command_witness :
  all isspace_char "   " = true
  /\ step "   " (mkWorld [("alice", "1234567890")] [])
     = (Ret tt,
        mkWorld [("alice", "1234567890")]
          [ErrorReport IncorrectCommand (TypeError "Unknown command ''");
           HelpText]).
Proof.
  split; [reflexivity|].
  apply (blank_line_is_unknown_command "   "
           (mkWorld [("alice", "1234567890")] [])).
  reflexivity.
Defined.

End ParseSpec.

(* ================================================================== *)
(** * Further properties of Record *)

Section RecordProperties.
Import PyStr PyStrFacts.

Lemma Phone_init_cases (p : string) :
  Phone_init p = Ret (mkField p)
  \/ Phone_init p = Raise (ValueError "Phone number must be 10 digits").
Proof.
  rewrite Phone_init_eq.
  destruct ((len p =? 10) && all isdigit_char p); auto.
Qed.

Lemma set_phones_same (r : Record_) : set_phones (phones r) r = r.
Proof. destruct r. reflexivity. Qed.

Lemma Forall_remove_first (P : Phone -> Prop) (phone : string) (ps : list Phone) :
  Forall P ps -> Forall P (remove_first phone ps).
Proof.
  induction 1 as [|p ps Hp Hps IH]; simpl; auto.
  destruct (String.eqb (value p) phone); auto.
Qed.

Lemma add_phone_run (p : string) (r : Record_) :
  add_phone p r =
  match Phone_init p with
  | Ret ph => (Ret tt, set_phones (phones r ++ [ph]) r)
  | Raise e => (Raise e, r)
  end.
Proof.
  unfold add_phone, bind, lift, modify. destruct (Phone_init p); reflexivity.
Qed.

Lemma valid_add_phone (p : string) (r : Record_) :
  valid_record r -> valid_record (snd (add_phone p r)).
Proof.
  intros [Hname Hphones]. rewrite add_phone_run.
  destruct (Phone_init_cases p) as [H|H]; rewrite H; simpl.
  - split; [exact Hname|]. apply Forall_app. split; [exact Hphones|].
    constructor; [exact H | constructor].
  - split; assumption.
Qed.

Lemma valid_remove_phone (p : string) (r : Record_) :
  valid_record r -> valid_record (snd (remove_phone p r)).
Proof.
  intros [Hname Hphones]. split; [exact Hname|].
  simpl. apply Forall_remove_first, Hphones.
Qed.

Lemma edit_phone_run (old_phone new_phone : string) (r : Record_) :
  edit_phone old_phone new_phone r
  = add_phone new_phone (snd (remove_phone old_phone r)).
Proof. reflexivity. Qed.

(** X1: a record is made for every name but the empty one, with no phone,
    and whatever [add_phone], [remove_phone] and [edit_phone] are given,
    also when they raise, the name stays non-empty and every phone stored
    is one that [Phone] accepts. *)
Theorem record_stays_valid (n p q : string) (r : Record_) :
  (n <> "" ->
     Record_init n = Ret (mkRecord (mkField n) [])
     /\ valid_record (mkRecord (mkField n) []))
  /\ Record_init "" = Raise (ValueError "Name cannot be empty.")
  /\ (valid_record r ->
      valid_record (snd (add_phone p r))
      /\ valid_record (snd (remove_phone p r))
      /\ valid_record (snd (edit_phone p q r))).
Proof.
  split; [|split; [reflexivity|]].
  - intros Hn. unfold Record_init, Name_init.
    apply String.eqb_neq in Hn. rewrite Hn.
    split; [reflexivity|]. split; [|constructor].
    simpl. apply String.eqb_neq, Hn.
  - intros Hr. split; [apply valid_add_phone, Hr|].
    split; [apply valid_remove_phone, Hr|].
    rewrite edit_phone_run. apply valid_add_phone, valid_remove_phone, Hr.
Qed.

Lemma record_stays_valid_witness :
  "john" <> ""
  /\ Record_init "john" = Ret (mkRecord (mkField "john") [])
  /\ valid_record (mkRecord (mkField "john") [])
  /\ valid_record
       (snd (edit_phone "1234567890" "12345"
               (snd (add_phone "1234567890" (mkRecord (mkField "john") []))))).
Proof.
  assert (Hv : valid_record (mkRecord (mkField "john") [])).
  { apply (proj1 (record_stays_valid "john" "" "" (mkRecord (mkField "john") []))).
    discriminate. }
  split; [discriminate|]. split; [reflexivity|]. split; [exact Hv|].
  apply (proj2 (proj2 (record_stays_valid "" "1234567890" "12345"
                         (snd (add_phone "1234567890"
                                 (mkRecord (mkField "john") [])))))).
  apply (proj2 (proj2 (record_stays_valid "" "1234567890" ""
                         (mkRecord (mkField "john") [])))).
  exact Hv.
Defined.

Lemma find_app_found (phone : string) (ps : list Phone) :
  List.find (fun x => String.eqb (value x) phone) (ps ++ [mkField phone])
  = Some (mkField phone).
Proof.
  induction ps as [|[v] ps IH]; simpl.
  - rewrite String.eqb_refl. reflexivity.
  - destruct (String.eqb v phone) eqn:E; [|exact IH].
    apply String.eqb_eq in E. subst v. reflexivity.
Qed.

Lemma find_app_other (phone other : string) (ps : list Phone) :
  other <> phone ->
  List.find (fun x => String.eqb (value x) other) (ps ++ [mkField phone])
  = List.find (fun x => String.eqb (value x) other) ps.
Proof.
  intros Hne. induction ps as [|[v] ps IH]; simpl.
  - apply not_eq_sym, String.eqb_neq in Hne. rewrite Hne. reflexivity.
  - destruct (String.eqb v other); [reflexivity | exact IH].
Qed.

(** X2: after [add_phone(p)] with a phone that [Phone] accepts,
    [find_phone(p)] finds a phone of that value and the search for any other
    value gives what it gave before; with a phone that [Phone] rejects,
    [add_phone] raises [ValueError] and the record is what it was. *)
Theorem add_phone_then_find_phone (p : string) (r : Record_) :
  (Phone_init p = Ret (mkField p) ->
     add_phone p r = (Ret tt, set_phones (phones r ++ [mkField p]) r)
     /\ find_phone p (snd (add_phone p r)) = Some (mkField p)
     /\ (forall other, other <> p ->
         find_phone other (snd (add_phone p r)) = find_phone other r))
  /\ (Phone_init p <> Ret (mkField p) ->
     add_phone p r
     = (Raise (ValueError "Phone number must be 10 digits"), r)).
Proof.
  rewrite add_phone_run. split.
  - intros ->. split; [reflexivity|]. unfold find_phone. simpl.
    split; [apply find_app_found|].
    intros other Hne. apply find_app_other, Hne.
  - intros Hbad. destruct (Phone_init_cases p) as [H|H]; [contradiction|].
    rewrite H. reflexivity.
Qed.

Lemma add_phone_then_find_phone_witness :
  (Phone_init "1234567890" = Ret (mkField "1234567890")
   /\ find_phone "1234567890"
        (snd (add_phone "1234567890" (mkRecord (mkField "john") [])))
      = Some (mkField "1234567890"))
  /\ (Phone_init "12345" <> Ret (mkField "12345")
      /\ add_phone "12345" (mkRecord (mkField "john") [])
         = (Raise (ValueError "Phone number must be 10 digits"),
            mkRecord (mkField "john") [])).
Proof.
  split.
  - split; [reflexivity|].
    apply (proj1 (add_phone_then_find_phone "1234567890"
                    (mkRecord (mkField "john") []))).
    reflexivity.
  - split; [discriminate|].
    apply (proj2 (add_phone_then_find_phone "12345"
                    (mkRecord (mkField "john") []))).
    discriminate.
Defined.

Lemma count_remove_first_same (phone : string) (ps : list Phone) :
  List.find (fun x => String.eqb (value x) phone) ps <> None ->
  count_phone phone (remove_first phone ps) + 1 = count_phone phone ps
  /\ List.length (remove_first phone ps) + 1 = List.length ps.
Proof.
  unfold count_phone. induction ps as [|x ps IH]; simpl.
  - intros H. contradiction H. reflexivity.
  - destruct (String.eqb (value x) phone) eqn:E; simpl.
    + intros _. lia.
    + intros H. rewrite E. simpl. destruct (IH H). lia.
Qed.

Lemma count_remove_first_other (phone other : string) (ps : list Phone) :
  other <> phone ->
  count_phone other (remove_first phone ps) = count_phone other ps.
Proof.
  intros Hne. unfold count_phone. induction ps as [|x ps IH]; simpl; auto.
  destruct (String.eqb (value x) phone) eqn:E; simpl.
  - apply String.eqb_eq in E. rewrite E.
    apply not_eq_sym, String.eqb_neq in Hne. rewrite Hne. reflexivity.
  - destruct (String.eqb (value x) other); simpl; rewrite IH; reflexivity.
Qed.

(** X3: [remove_phone(p)] never raises and takes away one phone of value
    [p], not all of them: when [p] is in the list, the list is one shorter
    and has one phone of value [p] less; when it is not, the record is what
    it was; the number of phones of any other value never changes. *)
Theorem remove_phone_removes_one (p : string) (r : Record_) :
  fst (remove_phone p r) = Ret tt
  /\ name (snd (remove_phone p r)) = name r
  /\ (find_phone p r <> None ->
      List.length (phones (snd (remove_phone p r))) + 1 = List.length (phones r)
      /\ count_phone p (phones (snd (remove_phone p r))) + 1
         = count_phone p (phones r))
  /\ (find_phone p r = None -> snd (remove_phone p r) = r)
  /\ (forall other, other <> p ->
      count_phone other (phones (snd (remove_phone p r)))
      = count_phone other (phones r)).
Proof.
  split; [reflexivity|]. split; [reflexivity|]. simpl. split; [|split].
  - intros Hin. destruct (count_remove_first_same p (phones r) Hin). auto.
  - intros Habsent. unfold find_phone in Habsent.
    rewrite (remove_first_absent _ _ Habsent). apply set_phones_same.
  - intros other Hne. apply count_remove_first_other, Hne.
Qed.

Lemma remove_phone_removes_one_witness :
  (find_phone "1234567890"
     (mkRecord (mkField "john") [mkField "1234567890"; mkField "1234567890"])
   <> None
   /\ count_phone "1234567890"
        (phones (snd (remove_phone "1234567890"
                        (mkRecord (mkField "john")
                           [mkField "1234567890"; mkField "1234567890"])))) + 1
      = 2)
  /\ (find_phone "5555555555" (mkRecord (mkField "john") [mkField "1234567890"])
      = None
      /\ snd (remove_phone "5555555555"
                (mkRecord (mkField "john") [mkField "1234567890"]))
         = mkRecord (mkField "john") [mkField "1234567890"]).
Proof.
  split.
  - split; [discriminate|].
    apply (proj1 (proj2 (proj2 (remove_phone_removes_one "1234567890"
             (mkRecord (mkField "john")
                [mkField "1234567890"; mkField "1234567890"]))))).
    discriminate.
  - split; [reflexivity|].
    apply (proj1 (proj2 (proj2 (proj2 (remove_phone_removes_one "5555555555"
             (mkRecord (mkField "john") [mkField "1234567890"])))))).
    reflexivity.
Defined.

Lemma remove_first_app_absent (phone : string) (ps : list Phone) :
  List.find (fun x => String.eqb (value x) phone) ps = None ->
  remove_first phone (ps ++ [mkField phone]) = ps.
Proof.
  induction ps as [|x ps IH]; simpl.
  - rewrite String.eqb_refl. reflexivity.
  - destruct (String.eqb (value x) phone); [discriminate|].
    intros H. rewrite (IH H). reflexivity.
Qed.

(** X4: [remove_phone(p)] undoes [add_phone(p)] when the record had no
    phone of value [p]: the record is again what it was. *)
Theorem add_phone_then_remove_phone (p : string) (r : Record_) :
  Phone_init p = Ret (mkField p) ->
  find_phone p r = None ->
  snd (remove_phone p (snd (add_phone p r))) = r.
Proof.
  intros Hvalid Habsent. rewrite add_phone_run, Hvalid.
  unfold remove_phone, modify, set_phones. cbn [snd phones name].
  unfold find_phone in Habsent. destruct r as [nm ps]. cbn [name phones] in *.
  f_equal. apply remove_first_app_absent, Habsent.
Qed.

Lemma add_phone_then_remove_phone_witness :
  Phone_init "0987654321" = Ret (mkField "0987654321")
  /\ find_phone "0987654321" (mkRecord (mkField "john") [mkField "1234567890"])
     = None
  /\ snd (remove_phone "0987654321"
            (snd (add_phone "0987654321"
                    (mkRecord (mkField "john") [mkField "1234567890"]))))
     = mkRecord (mkField "john") [mkField "1234567890"].
Proof.
  split; [reflexivity|]. split; [reflexivity|].
  apply (add_phone_then_remove_phone "0987654321"
           (mkRecord (mkField "john") [mkField "1234567890"])); reflexivity.
Defined.

(** X5: [edit_phone(old, new)] with a phone [new] that [Phone] rejects
    raises [ValueError] after the removal has been done: a phone of value
    [old] that was in the list is lost, and the list is one shorter. *)
Theorem edit_phone_invalid_loses_old (old_phone new_phone : string) (r : Record_) :
  Phone_init new_phone <> Ret (mkField new_phone) ->
  edit_phone old_phone new_phone r
  = (Raise (ValueError "Phone number must be 10 digits"),
     set_phones (remove_first old_phone (phones r)) r)
  /\ (find_phone old_phone r <> None ->
      List.length (phones (snd (edit_phone old_phone new_phone r))) + 1
      = List.length (phones r)
      /\ count_phone old_phone (phones (snd (edit_phone old_phone new_phone r))) + 1
         = count_phone old_phone (phones r)).
Proof.
  intros Hbad. rewrite edit_phone_run, add_phone_run.
  destruct (Phone_init_cases new_phone) as [H|H]; [contradiction|].
  rewrite H. split; [reflexivity|]. simpl.
  intros Hin. destruct (count_remove_first_same old_phone (phones r) Hin).
  auto.
Qed.

Lemma edit_phone_invalid_loses_old_witness :
  Phone_init "12345" <> Ret (mkField "12345")
  /\ edit_phone "1234567890" "12345"
       (mkRecord (mkField "john") [mkField "1234567890"])
     = (Raise (ValueError "Phone number must be 10 digits"),
        mkRecord (mkField "john") []).
Proof.
  split; [discriminate|].
  apply (proj1 (edit_phone_invalid_loses_old "1234567890" "12345"
                  (mkRecord (mkField "john") [mkField "1234567890"])
                  ltac:(discriminate))).
Defined.

End RecordProperties.

(* ================================================================== *)
(** * Further properties of AddressBook *)

Section AddressBookProperties.
Import DictFacts.

Lemma length_set_present (book : AddressBook) (k : string) (r : Record_) :
  Dict.get k book <> None ->
  List.length (Dict.set k r book) = List.length book.
Proof.
  induction book as [|[k' r'] book IH]; simpl.
  - intros H. contradiction H. reflexivity.
  - destruct (String.eqb k k'); simpl; auto.
Qed.

(** X6: after [add_record(r)], [find] of the name of [r] gives [r] and
    [find] of any other name gives what it gave before.  A record whose name
    is new goes to the end of the book; a record whose name is already a key
    takes the place of the old one, the book keeping its keys, their order
    and its size. *)
Theorem add_record_then_find (r : Record_) (book : AddressBook) :
  fst (add_record r book) = Ret tt
  /\ find (value (name r)) (snd (add_record r book)) = Some r
  /\ (forall other, other <> value (name r) ->
      find other (snd (add_record r book)) = find other book)
  /\ (find (value (name r)) book = None ->
      snd (add_record r book) = book ++ [(value (name r), r)])
  /\ (find (value (name r)) book <> None ->
      Dict.keys (snd (add_record r book)) = Dict.keys book
      /\ List.length (snd (add_record r book)) = List.length book).
Proof.
  unfold add_record, modify, find. simpl.
  split; [reflexivity|]. split; [apply get_set_same|].
  split; [intros other Hne; apply get_set_other; congruence|].
  split; [apply set_absent|].
  intros Hin. split; [apply keys_set_present, Hin | apply length_set_present, Hin].
Qed.

Lemma add_record_then_find_witness :
  (find "john" [] = None
   /\ snd (add_record (mkRecord (mkField "john") []) [])
      = [("john", mkRecord (mkField "john") [])])
  /\ (find "john" [("john", mkRecord (mkField "john") [])] <> None
      /\ List.length
           (snd (add_record (mkRecord (mkField "john") [mkField "1234567890"])
                   [("john", mkRecord (mkField "john") [])]))
         = 1).
Proof.
  split.
  - split; [reflexivity|].
    apply (proj1 (proj2 (proj2 (proj2
             (add_record_then_find (mkRecord (mkField "john") []) []))))).
    reflexivity.
  - split; [discriminate|].
    apply (proj2 (proj2 (proj2 (proj2
             (add_record_then_find
                (mkRecord (mkField "john") [mkField "1234567890"])
                [("john", mkRecord (mkField "john") [])]))))).
    discriminate.
Defined.

Lemma del_app_absent (book : AddressBook) (k : string) (r : Record_) :
  Dict.get k book = None -> Dict.del k (book ++ [(k, r)]) = book.
Proof.
  induction book as [|[k' r'] book IH]; simpl.
  - rewrite String.eqb_refl. reflexivity.
  - destruct (String.eqb k k'); [discriminate|].
    intros H. rewrite (IH H). reflexivity.
Qed.

Lemma delete_run (n : string) (book : AddressBook) :
  delete n book =
  match Dict.get n book with
  | Some _ => (Ret tt, Dict.del n book)
  | None => (Raise (KeyError ("Record with name '" ++ n ++ "' not found")), book)
  end.
Proof.
  unfold delete, bind, gets, Dict.mem. destruct (Dict.get n book); reflexivity.
Qed.

(** X7: [delete] undoes [add_record] of a record whose name was not in the
    book; and a name that has just been deleted is no longer there, so
    deleting it once more raises [KeyError] and changes nothing. *)
Theorem add_record_then_delete (r : Record_) (n : string) (book : AddressBook) :
  (find (value (name r)) book = None ->
     delete (value (name r)) (snd (add_record r book)) = (Ret tt, book))
  /\ find n (snd (delete n book)) = None
  /\ delete n (snd (delete n book))
     = (Raise (KeyError ("Record with name '" ++ n ++ "' not found")),
        snd (delete n book)).
Proof.
  assert (Hgone : find n (snd (delete n book)) = None).
  { unfold find. rewrite delete_run.
    destruct (Dict.get n book) eqn:G; simpl; [apply get_del_same | exact G]. }
  split; [|split; [exact Hgone|]].
  - intros Habsent. unfold find in Habsent.
    unfold add_record, modify. simpl.
    rewrite delete_run, get_set_same, (set_absent _ _ _ Habsent).
    rewrite (del_app_absent _ _ _ Habsent). reflexivity.
  - unfold find in Hgone. rewrite (delete_run n (snd (delete n book))), Hgone.
    reflexivity.
Qed.

Lemma add_record_then_delete_witness :
  find "jane" [("john", mkRecord (mkField "john") [])] = None
  /\ delete "jane"
       (snd (add_record (mkRecord (mkField "jane") [])
               [("john", mkRecord (mkField "john") [])]))
     = (Ret tt, [("john", mkRecord (mkField "john") [])]).
Proof.
  split; [reflexivity|].
  apply (proj1 (add_record_then_delete (mkRecord (mkField "jane") []) ""
                  [("john", mkRecord (mkField "john") [])])).
  reflexivity.
Defined.

(** X8: a book holds at most one record per name, and [add_record] and
    [delete] keep it so, whether they return or raise. *)
Theorem book_keeps_one_record_per_name (r : Record_) (n : string)
    (book : AddressBook) :
  Dict.wf (@Dict.empty Record_)
  /\ (Dict.wf book ->
      Dict.wf (snd (add_record r book)) /\ Dict.wf (snd (delete n book))).
Proof.
  split; [constructor|].
  intros Hwf. split.
  - apply wf_set, Hwf.
  - rewrite delete_run. destruct (Dict.get n book); simpl;
      [apply wf_del, Hwf | exact Hwf].
Qed.

Lemma book_keeps_one_record_per_name_witness :
  Dict.wf [("john", mkRecord (mkField "john") [])]
  /\ Dict.wf (snd (add_record (mkRecord (mkField "john") [mkField "1234567890"])
                     [("john", mkRecord (mkField "john") [])])).
Proof.
  assert (H : Dict.wf [("john", mkRecord (mkField "john") [])]).
  { apply (proj2 (book_keeps_one_record_per_name
                    (mkRecord (mkField "john") []) "" Dict.empty)).
    apply (proj1 (book_keeps_one_record_per_name
                    (mkRecord (mkField "john") []) "" Dict.empty)). }
  split; [exact H|].
  apply (proj2 (book_keeps_one_record_per_name
                  (mkRecord (mkField "john") [mkField "1234567890"]) ""
                  [("john", mkRecord (mkField "john") [])])).
  exact H.
Defined.

End AddressBookProperties.

(* ================================================================== *)
(** * Further properties of the error wrapper and of dispatch *)

Section DispatchProperties.
Import PyStr PyStrFacts SplitFacts DictFacts LoopFacts.

(** X9: [input_error] hands through what a handler returns, never assigns
    to the contacts, only adds to what the handler has printed, and a
    decorated handler called from the decorated dispatcher behaves as if
    decorated once: the outer wrapper finds nothing left to catch. *)
Theorem input_error_is_transparent (h : M world unit) (w : world) :
  (forall w', h w = (Ret tt, w') -> input_error h w = (Ret tt, w'))
  /\ contacts (snd (input_error h w)) = contacts (snd (h w))
  /\ (exists o, out (snd (input_error h w)) = out (snd (h w)) ++ o)
  /\ input_error (input_error h) w = input_error h w.
Proof.
  split; [intros w'; apply input_error_Ret|].
  split; [|split; [|apply input_error_idem]].
  - unfold input_error. destruct (h w) as [[[]|[]] w']; reflexivity.
  - unfold input_error. destruct (h w) as [[[]|[]] w']; simpl;
      try (eexists; reflexivity);
      try (exists []; rewrite List.app_nil_r; reflexivity).
    exists [ErrorReport IncorrectCommand (TypeError msg); HelpText].
    rewrite <- List.app_assoc. reflexivity.
Qed.

Lemma input_error_is_transparent_witness :
  print Greeting world0 = (Ret tt, mkWorld [] [Greeting])
  /\ input_error (print Greeting) world0 = (Ret tt, mkWorld [] [Greeting]).
Proof.
  split; [reflexivity|].
  apply (proj1 (input_error_is_transparent (print Greeting) world0)).
  reflexivity.
Defined.

Ltac by_command command :=
  match goal with
  | |- context [String.eqb command ?s] =>
      let E := fresh "E" in
      destruct (String.eqb command s) eqn:E;
      [apply String.eqb_eq in E; subst command | clear E]
  end.

(** The commands of the table, one by one. *)
Lemma command_cases (command : string) :
  command = "hello" \/ command = "add" \/ command = "change"
  \/ command = "phone" \/ command = "all" \/ command = "help"
  \/ exit_command command = true \/ recognized command = false.
Proof.
  unfold recognized, Dict.mem, exit_command, command_handlers. cbn [Dict.get].
  repeat by_command command; cbn [String.eqb Ascii.eqb Bool.eqb orb]; tauto.
Qed.

Lemma dispatch_help args w :
  handle_command command_handlers "help" (Some args) w
  = (Ret tt, mkWorld (contacts w) (out w ++ [HelpText])).
Proof. reflexivity. Qed.

Lemma dispatch_exit command args w :
  exit_command command = true ->
  handle_command command_handlers command (Some args) w
  = (Raise SystemExit, mkWorld (contacts w) (out w ++ [GoodBye])).
Proof.
  unfold exit_command. intros H.
  apply orb_true_iff in H as [H|H]; [apply orb_true_iff in H as [H|H]|];
    apply String.eqb_eq in H; subst command; reflexivity.
Qed.

(** What one dispatch does to the session: it adds to the output, and the
    contacts are left alone, or get a new last item by [add], or get a new
    phone for a name they have by [change]. *)
Lemma handle_command_effect command args w :
  (exists o,
     out (snd (handle_command command_handlers command (Some args) w))
     = out w ++ o)
  /\ (contacts (snd (handle_command command_handlers command (Some args) w))
      = contacts w
      \/ (exists n p,
           command = "add" /\ args = [n; p]
           /\ Dict.get n (contacts w) = None
           /\ contacts (snd (handle_command command_handlers command (Some args) w))
              = contacts w ++ [(n, p)])
      \/ (exists n p cur,
           command = "change" /\ args = [n; p]
           /\ Dict.get n (contacts w) = Some cur /\ cur <> p
           /\ contacts (snd (handle_command command_handlers command (Some args) w))
              = Dict.set n p (contacts w))).
Proof.
  destruct (command_cases command)
    as [->|[->|[->|[->|[->|[->|[Hexit|Hunknown]]]]]]].
  - rewrite dispatch_hello. split; [eexists; reflexivity | left; reflexivity].
  - rewrite dispatch_add.
    destruct args as [|a [|b [|c l]]];
      try (rewrite add_contact_arity by (simpl; lia);
           split; [eexists; reflexivity | left; reflexivity]).
    rewrite add_contact_two.
    destruct (Dict.get a (contacts w)) as [cur|] eqn:G.
    + destruct (String.eqb cur b);
        (split; [eexists; reflexivity | left; reflexivity]).
    + split; [eexists; reflexivity|]. right. left. exists a, b.
      repeat split; auto. simpl. apply set_absent, G.
  - rewrite dispatch_change.
    destruct args as [|a [|b [|c l]]];
      try (rewrite change_contact_arity by (simpl; lia);
           split; [eexists; reflexivity | left; reflexivity]).
    rewrite change_contact_two.
    destruct (Dict.get a (contacts w)) as [cur|] eqn:G.
    + destruct (String.eqb b cur) eqn:E.
      * split; [eexists; reflexivity | left; reflexivity].
      * split; [eexists; reflexivity|]. right. right. exists a, b, cur.
        apply String.eqb_neq in E. repeat split; auto.
    + split; [eexists; reflexivity | left; reflexivity].
  - rewrite dispatch_phone.
    destruct args as [|a [|b l]];
      try (rewrite show_phone_arity by (simpl; lia);
           split; [eexists; reflexivity | left; reflexivity]).
    rewrite show_phone_one.
    destruct (Dict.get a (contacts w));
      (split; [eexists; reflexivity | left; reflexivity]).
  - rewrite dispatch_all, show_all_contacts_run.
    destruct (contacts w) eqn:G;
      (split; [eexists; reflexivity | left; simpl; congruence]).
  - rewrite dispatch_help. split; [eexists; reflexivity | left; reflexivity].
  - rewrite (dispatch_exit _ _ _ Hexit).
    split; [eexists; reflexivity | left; reflexivity].
  - rewrite (dispatch_unknown _ _ _ Hunknown).
    split; [eexists; reflexivity | left; reflexivity].
Qed.

(** X10: each of [close], [exit] and [quit], with or without arguments,
    prints the farewell and raises [SystemExit], which no wrapper catches;
    the contacts are left alone and the loop is left: the lines that follow
    are not read. *)
Theorem exit_commands_end_the_session (line : string) (rest : list string)
    (w : world) :
  exit_command (fst (parse_input line)) = true ->
  step line w = (Raise SystemExit, mkWorld (contacts w) (out w ++ [GoodBye]))
  /\ session (line :: rest) w
     = (Raise SystemExit, mkWorld (contacts w) (out w ++ [GoodBye])).
Proof.
  intros Hexit.
  assert (Hstep : step line w
                  = (Raise SystemExit, mkWorld (contacts w) (out w ++ [GoodBye]))).
  { rewrite step_dispatch. apply dispatch_exit, Hexit. }
  split; [exact Hstep|].
  simpl. unfold bind. rewrite Hstep. reflexivity.
Qed.

Lemma exit_commands_end_the_session_witness :
  exit_command (fst (parse_input "Quit now")) = true
  /\ session ["Quit now"; "add alice 1234567890"] world0
     = (Raise SystemExit, mkWorld [] [GoodBye]).
Proof.
  split; [reflexivity|].
  apply (proj2 (exit_commands_end_the_session "Quit now"
                  ["add alice 1234567890"] world0 eq_refl)).
Defined.

(** X11: only [add] and [change] assign to the contacts: a turn on a line
    with any other first token, whatever follows it on the line, leaves the
    contacts as they are. *)
Theorem only_add_and_change_assign (line : string) (w : world) :
  modifies_contacts (fst (parse_input line)) = false ->
  contacts (snd (step line w)) = contacts w.
Proof.
  intros Hread. rewrite step_dispatch.
  destruct (handle_command_effect (fst (parse_input line))
              (snd (parse_input line)) w)
    as [_ [Hsame|[(n & p & Hc & _)|(n & p & cur & Hc & _)]]];
    [exact Hsame | |]; rewrite Hc in Hread; discriminate.
Qed.

Lemma only_add_and_change_assign_witness :
  modifies_contacts (fst (parse_input "phone alice bob")) = false
  /\ contacts (snd (step "phone alice bob" (mkWorld [("alice", "1")] [])))
     = [("alice", "1")].
Proof.
  split; [reflexivity|].
  apply (only_add_and_change_assign "phone alice bob"
           (mkWorld [("alice", "1")] [])).
  reflexivity.
Defined.

Lemma get_Some_key (d : Dict.t string) (k : string) :
  Dict.get k d <> None <-> In k (Dict.keys d).
Proof.
  induction d as [|[k' v'] d IH]; simpl.
  - split; [intros H; contradiction H; reflexivity | intros []].
  - destruct (String.eqb k k') eqn:E.
    + apply String.eqb_eq in E. subst k'. split; [auto | discriminate].
    + rewrite IH. split; [auto|]. intros [H|H]; [|exact H].
      subst k'. rewrite String.eqb_refl in E. discriminate.
Qed.

(** X12: no command takes a name out of the contacts or moves it.  After a
    turn the names are those of before, in the order of before, with at
    most one new name at the end; so a name that had a phone still has one,
    and names that were pairwise different still are. *)
Theorem names_only_grow (line : string) (w : world) :
  (Dict.keys (contacts (snd (step line w))) = Dict.keys (contacts w)
   \/ exists n,
        Dict.get n (contacts w) = None
        /\ Dict.keys (contacts (snd (step line w)))
           = Dict.keys (contacts w) ++ [n])
  /\ (forall n, Dict.get n (contacts w) <> None ->
      Dict.get n (contacts (snd (step line w))) <> None)
  /\ (Dict.wf (contacts w) -> Dict.wf (contacts (snd (step line w)))).
Proof.
  assert (Hkeys :
    Dict.keys (contacts (snd (step line w))) = Dict.keys (contacts w)
    \/ exists n,
         Dict.get n (contacts w) = None
         /\ Dict.keys (contacts (snd (step line w)))
            = Dict.keys (contacts w) ++ [n]).
  { rewrite step_dispatch.
    destruct (handle_command_effect (fst (parse_input line))
                (snd (parse_input line)) w)
      as [_ [Hc|[(n & p & _ & _ & G & Hc)|(n & p & cur & _ & _ & G & _ & Hc)]]];
      rewrite Hc.
    - left. reflexivity.
    - right. exists n. split; [exact G|].
      unfold Dict.keys. rewrite map_app. reflexivity.
    - left. apply keys_set_present. congruence. }
  split; [exact Hkeys|]. split.
  - intros n Hn. apply get_Some_key. apply get_Some_key in Hn.
    destruct Hkeys as [->|(m & _ & ->)]; [exact Hn|].
    apply in_or_app. left. exact Hn.
  - unfold Dict.wf. intros Hwf.
    destruct Hkeys as [->|(m & G & ->)]; [exact Hwf|].
    apply NoDup_snoc; [exact Hwf | exact (get_None_not_key _ _ G)].
Qed.

Lemma names_only_grow_witness :
  Dict.get "alice" (contacts (mkWorld [("alice", "1")] [])) <> None
  /\ Dict.get "alice"
       (contacts (snd (step "add alice 2" (mkWorld [("alice", "1")] []))))
     <> None.
Proof.
  split; [discriminate|].
  apply (proj1 (proj2 (names_only_grow "add alice 2"
                         (mkWorld [("alice", "1")] [])))).
  discriminate.
Defined.

End DispatchProperties.

(* ================================================================== *)
(** * Further properties of parse_input *)

Section ParseProperties.
Import PyStr PyStrFacts SplitFacts DictFacts LoopFacts.

Lemma all_isspace_lower (s : string) :
  all isspace_char (lower s) = all isspace_char s.
Proof.
  induction s as [|c s IH]; simpl; auto.
  rewrite isspace_lower_char, IH. reflexivity.
Qed.

Lemma flush_tokens (cur : string) (l : list string) :
  all not_space cur = true ->
  Forall (fun t => token t = true) l ->
  Forall (fun t => token t = true) (flush cur l).
Proof.
  intros Hcur Hl. destruct cur as [|c cur]; simpl; [exact Hl|].
  constructor; [|exact Hl]. unfold token. rewrite Hcur. reflexivity.
Qed.

(** Every item of [split] is a token. *)
Lemma split_from_tokens (s cur : string) :
  all not_space cur = true ->
  Forall (fun t => token t = true) (split_from cur s).
Proof.
  revert cur. induction s as [|c s IH]; intros cur Hcur; simpl.
  - apply flush_tokens; auto.
  - destruct (isspace_char c) eqn:Hc.
    + apply flush_tokens; auto.
    + apply IH. rewrite all_app, Hcur. simpl. unfold not_space at 1.
      rewrite Hc. reflexivity.
Qed.

(** [split] returns no item only for a string of white space. *)
Lemma split_from_nil (s cur : string) :
  split_from cur s = [] -> cur = "" /\ all isspace_char s = true.
Proof.
  revert cur. induction s as [|c s IH]; intros cur; simpl.
  - destruct cur; [auto | discriminate].
  - destruct (isspace_char c).
    + destruct cur; simpl; [|discriminate].
      intros H. destruct (IH _ H) as [_ Hs]. auto.
    + intros H. destruct (IH _ H) as [Hcur _].
      destruct cur; discriminate.
Qed.

Lemma parts_lowercase_tokens (line : string) :
  Forall lowercase_token (split (lower line)).
Proof.
  pose proof (split_from_tokens (lower line) "" eq_refl) as Htok.
  pose proof (split_lower_fixed line) as Hlow.
  unfold split in *. induction Htok as [|t l Ht Hl IH]; auto.
  inversion Hlow; subst. constructor; [split; assumption | auto].
Qed.

Lemma args_lowercase_tokens (line : string) :
  Forall lowercase_token (snd (parse_input line)).
Proof.
  unfold parse_input. simpl.
  pose proof (parts_lowercase_tokens line) as H.
  destruct (split (lower line)) as [|p [|q l]]; simpl; auto.
  inversion H; assumption.
Qed.

(** X13: what [parse_input] returns.  Stripping the line first, as [main]
    does, changes nothing; every argument is a token in lower case; the
    command is the empty string when the line is empty or white space, with
    no argument then, and a token in lower case otherwise. *)
Theorem parse_input_returns_tokens (line : string) :
  parse_input (strip line) = parse_input line
  /\ Forall lowercase_token (snd (parse_input line))
  /\ (all isspace_char line = true -> parse_input line = ("", []))
  /\ (all isspace_char line = false -> lowercase_token (fst (parse_input line))).
Proof.
  split; [apply parse_input_strip|]. split; [apply args_lowercase_tokens|].
  split.
  - intros Hblank. unfold parse_input.
    rewrite split_spaces; [reflexivity|]. rewrite all_isspace_lower. exact Hblank.
  - intros Hnonblank. unfold parse_input. simpl.
    pose proof (parts_lowercase_tokens line) as H.
    destruct (split (lower line)) as [|p l] eqn:E.
    + apply split_from_nil in E as [_ E].
      rewrite all_isspace_lower, Hnonblank in E. discriminate.
    + inversion H; assumption.
Qed.

Lemma parse_input_returns_tokens_witness :
  (all isspace_char "  " = true /\ parse_input "  " = ("", []))
  /\ (all isspace_char " ADD  Bob " = false
      /\ lowercase_token (fst (parse_input " ADD  Bob "))).
Proof.
  split.
  - split; [reflexivity|].
    apply (proj1 (proj2 (proj2 (parse_input_returns_tokens "  ")))).
    reflexivity.
  - split; [reflexivity|].
    apply (proj2 (proj2 (proj2 (parse_input_returns_tokens " ADD  Bob ")))).
    reflexivity.
Defined.

Lemma lower_join (sep : string) (l : list string) :
  lower (join sep l) = join (lower sep) (map lower l).
Proof.
  induction l as [|x l IH]; [reflexivity|].
  destruct l as [|y l]; [reflexivity|].
  change (join sep (x :: y :: l)) with (x ++ sep ++ join sep (y :: l))%string.
  rewrite !lower_app, IH. reflexivity.
Qed.

Lemma split_from_join (l : list string) :
  Forall (fun t => token t = true) l -> split (join " " l) = l.
Proof.
  unfold split. induction 1 as [|x l Hx Hl IH]; [reflexivity|].
  destruct l as [|y l].
  - simpl. rewrite split_from_last by (apply token_not_space, Hx).
    simpl. apply flush_token, Hx.
  - change (join " " (x :: y :: l))
      with (x ++ String " " (join " " (y :: l)))%string.
    rewrite split_from_item by (auto using token_not_space).
    rewrite IH. simpl. apply flush_token, Hx.
Qed.

(** X14: a line made of tokens with one space between them parses to these
    tokens in lower case: the first is the command, the others are the
    arguments, as many as were typed. *)
Theorem parse_input_of_joined_tokens (t : string) (ts : list string) :
  Forall (fun x => token x = true) (t :: ts) ->
  parse_input (join " " (t :: ts)) = (lower t, map lower ts)
  /\ List.length (snd (parse_input (join " " (t :: ts)))) = List.length ts.
Proof.
  intros Htok.
  assert (H : parse_input (join " " (t :: ts)) = (lower t, map lower ts)).
  { unfold parse_input. rewrite lower_join.
    change (lower " ") with " ".
    rewrite split_from_join.
    - simpl. destruct ts; reflexivity.
    - apply Forall_map. eapply Forall_impl; [|exact Htok].
      intros x Hx. rewrite token_lower. exact Hx. }
  split; [exact H|]. rewrite H. simpl. apply length_map.
Qed.

Lemma parse_input_of_joined_tokens_witness :
  Forall (fun x => token x = true) ["Change"; "Bob"; "0987654321"]
  /\ parse_input "Change Bob 0987654321" = ("change", ["bob"; "0987654321"]).
Proof.
  split; [repeat constructor|].
  apply (proj1 (parse_input_of_joined_tokens "Change" ["Bob"; "0987654321"]
                  ltac:(repeat constructor))).
Defined.

End ParseProperties.

(* ================================================================== *)
(** * Further properties of the commands and of the loop *)

Section SessionProperties.
Import PyStr PyStrFacts SplitFacts DictFacts LoopFacts.

Lemma normalized_set (n p : string) (d : Dict.t string) :
  lowercase_token n -> lowercase_token p ->
  normalized d -> normalized (Dict.set n p d).
Proof.
  intros Hn Hp. unfold normalized.
  induction 1 as [|[k v] d [Hk Hv] Hd IH]; simpl.
  - constructor; [split; assumption | constructor].
  - destruct (String.eqb n k); constructor; auto; split; assumption.
Qed.

Lemma step_normalized (line : string) (w : world) :
  normalized (contacts w) -> normalized (contacts (snd (step line w))).
Proof.
  intros Hw. rewrite step_dispatch.
  pose proof (args_lowercase_tokens line) as Hargs.
  destruct (handle_command_effect (fst (parse_input line))
              (snd (parse_input line)) w)
    as [_ [Hc|[(n & p & _ & Ha & _ & Hc)|(n & p & cur & _ & Ha & _ & _ & Hc)]]];
    rewrite Hc; [exact Hw | |];
    rewrite Ha in Hargs;
    inversion Hargs as [|? ? Hn Hrest]; subst;
    inversion Hrest as [|? ? Hp _]; subst.
  - apply Forall_app. split; [exact Hw|].
    constructor; [split; assumption | constructor].
  - apply normalized_set; assumption.
Qed.

Lemma session_cons (line : string) (lines : list string) (w : world) :
  session (line :: lines) w =
  match fst (step line w) with
  | Ret _ => session lines (snd (step line w))
  | Raise e => (Raise e, snd (step line w))
  end.
Proof.
  simpl. unfold bind. destruct (step line w) as [[[]|e] w1]; reflexivity.
Qed.

(** X15: the loop stores names and phones in lower case only.  When every
    name and phone of the contacts is a token in lower case, it is so after
    any turn and at the end of any run of turns, as it is in the empty
    contacts a session starts with. *)
Theorem contacts_stay_lowercase (line : string) (lines : list string) (w : world) :
  normalized (contacts world0)
  /\ (normalized (contacts w) ->
      normalized (contacts (snd (step line w)))
      /\ normalized (contacts (snd (session lines w)))).
Proof.
  split; [constructor|].
  intros Hw. split; [apply step_normalized, Hw|].
  revert w Hw. induction lines as [|l lines IH]; intros w Hw; [exact Hw|].
  rewrite session_cons.
  pose proof (step_normalized l w Hw) as Hstep.
  destruct (fst (step l w)); [apply IH, Hstep | exact Hstep].
Qed.

Lemma contacts_stay_lowercase_witness :
  normalized (contacts world0)
  /\ normalized
       (contacts (snd (session ["ADD Alice 12345"; "Change ALICE X9"] world0))).
Proof.
  split; [constructor|].
  apply (proj2 (contacts_stay_lowercase ""
                  ["ADD Alice 12345"; "Change ALICE X9"] world0)).
  constructor.
Defined.



Lemma phone_lookup_run (n : string) (w : world) :
  handle_command command_handlers "phone" (Some [n]) w =
  match Dict.get n (contacts w) with
  | None =>
      (Ret tt,
       mkWorld (contacts w)
         (out w ++ [ErrorReport ContactNotFound
                      (KeyError ("Name '" ++ n ++ "' not found."))]))
  | Some phone => (Ret tt, mkWorld (contacts w) (out w ++ [PhoneNumber n phone]))
  end.
Proof. rewrite dispatch_phone. apply show_phone_one. Qed.

(** X17: the [phone] command with one argument.  For a name of the contacts
    it prints the phone stored for it; for any other name the handler raises
    [KeyError], reported as "Contact not found"; either way the contacts
    are what they were. *)
Theorem phone_command_cases (n : string) (w : world) :
  (forall phone,
     Dict.get n (contacts w) = Some phone ->
     handle_command command_handlers "phone" (Some [n]) w
     = (Ret tt, mkWorld (contacts w) (out w ++ [PhoneNumber n phone])))
  /\ (Dict.get n (contacts w) = None ->
      show_phone_undecorated [n] w
      = (Raise (KeyError ("Name '" ++ n ++ "' not found.")), w)
      /\ handle_command command_handlers "phone" (Some [n]) w
         = (Ret tt,
            mkWorld (contacts w)
              (out w ++ [ErrorReport ContactNotFound
                           (KeyError ("Name '" ++ n ++ "' not found."))]))).
Proof.
  rewrite phone_lookup_run. split.
  - intros phone ->. reflexivity.
  - intros Habsent. rewrite Habsent. split; [|reflexivity].
    unfold show_phone_undecorated, bind, gets. simpl. rewrite Habsent.
    reflexivity.
Qed.

Lemma phone_command_cases_witness :
  (Dict.get "alice" [("alice", "1234567890")] = Some "1234567890"
   /\ handle_command command_handlers "phone" (Some ["alice"])
        (mkWorld [("alice", "1234567890")] [])
      = (Ret tt,
         mkWorld [("alice", "1234567890")] [PhoneNumber "alice" "1234567890"]))
  /\ (Dict.get "bob" [("alice", "1234567890")] = None
      /\ handle_command command_handlers "phone" (Some ["bob"])
           (mkWorld [("alice", "1234567890")] [])
         = (Ret tt,
            mkWorld [("alice", "1234567890")]
              [ErrorReport ContactNotFound (KeyError "Name 'bob' not found.")])).
Proof.
  split.
  - split; [reflexivity|].
    apply (proj1 (phone_command_cases "alice"
                    (mkWorld [("alice", "1234567890")] []))).
    reflexivity.
  - split; [reflexivity|].
    apply (proj2 (phone_command_cases "bob"
                    (mkWorld [("alice", "1234567890")] []))).
    reflexivity.
Defined.

(** X18: after [change n p] on a name of the contacts, whatever phone the
    name had, [phone n] prints [p], a second [change n p] reports that
    nothing was changed and changes nothing, and the phone of every other
    name is the one of before. *)
Theorem change_then_phone (n p : string) (w : world) :
  Dict.get n (contacts w) <> None ->
  Dict.get n
    (contacts (snd (handle_command command_handlers "change" (Some [n; p]) w)))
  = Some p
  /\ (forall other, other <> n ->
      Dict.get other
        (contacts (snd (handle_command command_handlers "change" (Some [n; p]) w)))
      = Dict.get other (contacts w))
  /\ (forall w1,
      w1 = snd (handle_command command_handlers "change" (Some [n; p]) w) ->
      handle_command command_handlers "phone" (Some [n]) w1
      = (Ret tt, mkWorld (contacts w1) (out w1 ++ [PhoneNumber n p]))
      /\ handle_command command_handlers "change" (Some [n; p]) w1
         = (Ret tt, mkWorld (contacts w1) (out w1 ++ [NoChanges n p]))).
Proof.
  intros Hin.
  assert (Hget : Dict.get n
            (contacts (snd (handle_command command_handlers "change"
                              (Some [n; p]) w))) = Some p).
  { rewrite dispatch_change, change_contact_two.
    destruct (Dict.get n (contacts w)) as [cur|] eqn:G;
      [|contradiction Hin; reflexivity].
    destruct (String.eqb p cur) eqn:E; simpl.
    - apply String.eqb_eq in E. subst cur. exact G.
    - apply get_set_same. }
  split; [exact Hget|]. split.
  - intros other Hne. rewrite dispatch_change, change_contact_two.
    destruct (Dict.get n (contacts w)) as [cur|] eqn:G; [|reflexivity].
    destruct (String.eqb p cur); simpl; [reflexivity|].
    apply get_set_other. congruence.
  - intros w1 ->. split.
    + rewrite phone_lookup_run, Hget. reflexivity.
    + rewrite dispatch_change, (change_contact_two n p), Hget.
      rewrite String.eqb_refl. reflexivity.
Qed.

Lemma change_then_phone_witness :
  Dict.get "alice" (contacts (mkWorld [("alice", "1234567890")] [])) <> None
  /\ Dict.get "alice"
       (contacts (snd (handle_command command_handlers "change"
                         (Some ["alice"; "0987654321"])
                         (mkWorld [("alice", "1234567890")] []))))
     = Some "0987654321".
Proof.
  split; [discriminate|].
  apply (proj1 (change_then_phone "alice" "0987654321"
                  (mkWorld [("alice", "1234567890")] [])
                  ltac:(discriminate))).
Defined.

(** X19: on contacts that are not empty [all], with or without arguments,
    prints one line per contact, in the order in which the names were first
    added, and leaves the contacts alone; [change] keeps that order, as it
    puts the new phone where the old one was. *)
Theorem all_lists_in_insertion_order (args : list string) (n p : string)
    (w : world) :
  (contacts w <> [] ->
     handle_command command_handlers "all" (Some args) w
     = (Ret tt,
        mkWorld (contacts w)
          (out w ++ map (fun item => ContactLine (fst item) (snd item))
                      (contacts w))))
  /\ Dict.keys
       (contacts (snd (handle_command command_handlers "change" (Some [n; p]) w)))
     = Dict.keys (contacts w)
  /\ (Dict.get n (contacts w) = None ->
      contacts (snd (handle_command command_handlers "add" (Some [n; p]) w))
      = contacts w ++ [(n, p)]).
Proof.
  split; [|split].
  - intros Hne. rewrite dispatch_all, show_all_contacts_run.
    destruct (contacts w) as [|item items] eqn:E; [contradiction Hne; reflexivity|].
    f_equal. f_equal. f_equal. apply map_ext. intros [a b]. reflexivity.
  - rewrite dispatch_change, change_contact_two.
    destruct (Dict.get n (contacts w)) as [cur|] eqn:G; [|reflexivity].
    destruct (String.eqb p cur); simpl; [reflexivity|].
    apply keys_set_present. congruence.
  - intros Habsent. rewrite dispatch_add, add_contact_two, Habsent. simpl.
    apply set_absent, Habsent.
Qed.

Lemma all_lists_in_insertion_order_witness :
  contacts (mkWorld [("bob", "2"); ("alice", "1")] []) <> []
  /\ handle_command command_handlers "all" (Some [])
       (mkWorld [("bob", "2"); ("alice", "1")] [])
     = (Ret tt,
        mkWorld [("bob", "2"); ("alice", "1")]
          [ContactLine "bob" "2"; ContactLine "alice" "1"]).
Proof.
  split; [discriminate|].
  apply (proj1 (all_lists_in_insertion_order [] "" ""
                  (mkWorld [("bob", "2"); ("alice", "1")] []))).
  discriminate.
Defined.

End SessionProperties.

(* ================================================================== *)
(** * Searching a record *)

Section FindPhoneProperties.

(** X20: [find_phone(p)] returns a phone of the record whose value is [p]
    when there is one, and [None] exactly when no phone of the record has
    the value [p]. *)
Theorem find_phone_finds_by_value (p : string) (r : Record_) :
  (forall ph, find_phone p r = Some ph -> In ph (phones r) /\ value ph = p)
  /\ (find_phone p r = None <-> count_phone p (phones r) = 0)
  /\ (forall ph, In ph (phones r) -> value ph = p -> find_phone p r <> None).
Proof.
  unfold find_phone, count_phone. split; [|split].
  - intros ph H. apply List.find_some in H as [Hin Hv].
    split; [exact Hin | apply String.eqb_eq, Hv].
  - induction (phones r) as [|x ps IH]; simpl; [tauto|].
    destruct (String.eqb (value x) p); simpl; [|exact IH].
    split; discriminate.
  - intros ph Hin Hv Hnone.
    pose proof (List.find_none _ _ Hnone ph Hin) as H. simpl in H.
    rewrite Hv, String.eqb_refl in H. discriminate.
Qed.

Lemma find_phone_finds_by_value_witness :
  find_phone "1234567890"
    (mkRecord (mkField "john") [mkField "0987654321"; mkField "1234567890"])
  = Some (mkField "1234567890")
  /\ value (mkField "1234567890") = "1234567890".
Proof.
  split; [reflexivity|].
  apply (proj1 (find_phone_finds_by_value "1234567890"
                  (mkRecord (mkField "john")
                     [mkField "0987654321"; mkField "1234567890"]))
           (mkField "1234567890") eq_refl).
Defined.

End FindPhoneProperties.
